(** * pokebot: the stock-monitoring engine of [discord_pokemon_stock_bot.py]

    A shallow embedding of the engine (status extraction, change detection,
    the tracking store and the sweep loop) and the properties of it that the
    specification states.

    Conventions of the model.
    - A Python [str] is the [string] of the bytes of its UTF-8 encoding; a
      lone surrogate, which UTF-8 does not encode, is the three bytes ED,
      A0..BF, 80..BF that the generalised encoding gives it.  [str.lower]
      is modelled for the characters up to U+00FF (the ASCII letters and the
      letters of the Latin-1 supplement); the character classes of [re] and
      of [str.strip] are those of the ASCII range.
    - Saving is modelled twice: [save_state] and [save] are the save that
      completes, which is what every run of the loop and of the commands in
      this file assumes; [save_state_run] is the save with its two ways of
      failing.
    - A value that Python types dynamically (whatever [json.load] may
      return, and so whatever a field of a loaded [TrackedItem] may hold) is
      a [json] tree.
    - Library calls whose result only depends on the environment are inputs:
      what BeautifulSoup and [json.loads] make of a page is carried by the
      [page] record, the outcome of a fetch, the clock and the outcome of a
      Discord send are carried by the [turn] of the sweep.
    - Objects are shared: the [TrackedItem]s live in a heap, the dictionary
      [cfg.items] and the snapshot of a sweep hold references into it. *)

From Stdlib Require Import ZArith String Ascii List Bool Lia SpecFloat.
From stdpp Require Import base option list.
Import ListNotations.

Set Warnings "-register-all".

Local Open Scope string_scope.
Local Open Scope list_scope.

(* ================================================================== *)
(** * Python strings *)

Definition quote : ascii := "034"%char.
Definition newline : ascii := "010"%char.

Definition in_range (lo hi : nat) (c : ascii) : bool :=
  let n := nat_of_ascii c in Nat.leb lo n && Nat.leb n hi.

(** [str.isspace] on the ASCII range: TAB..CR, FS..US and the blank. *)
Definition is_space (c : ascii) : bool :=
  in_range 9 13 c || in_range 28 32 c.

(** [\w] on the ASCII range. *)
Definition is_word (c : ascii) : bool :=
  in_range 48 57 c || in_range 65 90 c || in_range 97 122 c || Ascii.eqb c "_".

Definition lower_char (c : ascii) : ascii :=
  if in_range 65 90 c then ascii_of_nat (nat_of_ascii c + 32) else c.

(** The lead byte of the characters U+00C0 to U+00FF. *)
Definition lead_c3 : ascii := "195"%char.

(** The lower case of a byte that follows [prev]: after the lead byte C3 the
    bytes 80 to 9E, without 97 (the multiplication sign), are the capital
    letters of the Latin-1 supplement, whose small letters are 32 further;
    everywhere else only an ASCII capital changes. *)
Definition lower_byte (prev c : ascii) : ascii :=
  if Ascii.eqb prev lead_c3 && in_range 128 158 c && negb (Ascii.eqb c "151"%char)
  then ascii_of_nat (nat_of_ascii c + 32)
  else lower_char c.

Fixpoint lower_from (prev : ascii) (s : string) : string :=
  match s with
  | EmptyString => EmptyString
  | String c s' => String (lower_byte prev c) (lower_from c s')
  end.

(** [s.lower()] *)
Definition lower (s : string) : string := lower_from "000"%char s.

(** The text has only characters up to U+00FF: ASCII bytes, and two-byte
    characters led by C2 or C3. *)
Fixpoint latin1 (s : string) : bool :=
  match s with
  | EmptyString => true
  | String c s' =>
      if in_range 0 127 c then latin1 s'
      else if in_range 194 195 c then
        match s' with
        | String c' s'' => in_range 128 191 c' && latin1 s''
        | EmptyString => false
        end
      else false
  end.

(** [s.encode("utf-8")] does not raise: no lone surrogate in the text. *)
Fixpoint encodable_from (prev : ascii) (s : string) : bool :=
  match s with
  | EmptyString => true
  | String c s' =>
      negb (Ascii.eqb prev "237"%char && in_range 160 191 c) && encodable_from c s'
  end.

Definition encodable (s : string) : bool := encodable_from "000"%char s.

(** [w in body] for two strings. *)
Fixpoint contains (w body : string) : bool :=
  String.prefix w body ||
  match body with
  | EmptyString => false
  | String _ body' => contains w body'
  end.

(** Truth value of a string: [bool(s)]. *)
Definition nonempty (s : string) : bool :=
  match s with EmptyString => false | String _ _ => true end.

Section Strip.
Variable blank : ascii -> bool.

Fixpoint lstrip_by (s : string) : string :=
  match s with
  | String c s' => if blank c then lstrip_by s' else s
  | EmptyString => EmptyString
  end.

Fixpoint rstrip_by (s : string) : string :=
  match s with
  | EmptyString => EmptyString
  | String c s' =>
      match rstrip_by s' with
      | EmptyString => if blank c then EmptyString else String c EmptyString
      | r => String c r
      end
  end.

Definition strip_by (s : string) : string := rstrip_by (lstrip_by s).
End Strip.

(** [s.strip()] *)
Definition strip (s : string) : string := strip_by is_space s.

(** [any(w in body for w in words)] *)
Definition any_kw (body : string) (words : list string) : bool :=
  existsb (fun w => contains w body) words.

(* ================================================================== *)
(** * The two patterns

    Writing Q for the double quote character, [AVAIL_PATTERN] is
    [\bavailability\bQ?\s*:\s*Q(.*?)Q] with IGNORECASE and [NAME_PATTERN] is
    [\bQnameQ\s*:\s*Q(.*?)Q].  Every choice the matcher
    has is between disjoint character classes, so backtracking never finds a
    match that the deterministic reading below misses; [search] returns
    group 1 of the leftmost match. *)

(** [(.*?)Q]: the shortest run of characters other than a newline that is
    followed by a quote. *)
Fixpoint lazy_until_quote (s : string) : option string :=
  match s with
  | EmptyString => None
  | String c s' =>
      if Ascii.eqb c quote then Some EmptyString
      else if Ascii.eqb c newline then None
      else option_map (String c) (lazy_until_quote s')
  end.

(** [\s*] *)
Fixpoint skip_spaces (s : string) : string :=
  match s with
  | String c s' => if is_space c then skip_spaces s' else s
  | EmptyString => EmptyString
  end.

(** [\s*:\s*Q(.*?)Q] *)
Definition colon_value (s : string) : option string :=
  match skip_spaces s with
  | String c s1 =>
      if Ascii.eqb c ":" then
        match skip_spaces s1 with
        | String q s2 => if Ascii.eqb q quote then lazy_until_quote s2 else None
        | EmptyString => None
        end
      else None
  | EmptyString => None
  end.

Definition is_word_opt (c : option ascii) : bool :=
  match c with Some c => is_word c | None => false end.

(** [\b] between the character before the position and the one at it. *)
Definition word_boundary (before after : option ascii) : bool :=
  xorb (is_word_opt before) (is_word_opt after).

Definition first_char (s : string) : option ascii :=
  match s with String c _ => Some c | EmptyString => None end.

(** Consume the literal [p] at the head of [s]; [ci] folds case as
    IGNORECASE does. *)
Fixpoint eat (ci : bool) (p s : string) : option string :=
  match p with
  | EmptyString => Some s
  | String a p' =>
      match s with
      | String b s' =>
          if Ascii.eqb (if ci then lower_char b else b) a then eat ci p' s' else None
      | EmptyString => None
      end
  end.

(** [Q?] *)
Definition optional_quote (s : string) : string :=
  match s with
  | String c s' => if Ascii.eqb c quote then s' else s
  | EmptyString => EmptyString
  end.

(** AVAIL_PATTERN anchored at a position whose preceding character is
    [prev]. *)
Definition avail_at (prev : option ascii) (s : string) : option string :=
  if word_boundary prev (first_char s) then
    match eat true "availability" s with
    | Some r =>
        if word_boundary (Some "y"%char) (first_char r)
        then colon_value (optional_quote r)
        else None
    | None => None
    end
  else None.

(** NAME_PATTERN anchored at a position whose preceding character is
    [prev]. *)
Definition name_at (prev : option ascii) (s : string) : option string :=
  if word_boundary prev (first_char s) then
    match eat false (String quote "name") s with
    | Some r =>
        match r with
        | String c r' => if Ascii.eqb c quote then colon_value r' else None
        | EmptyString => None
        end
    | None => None
    end
  else None.

(** [pattern.search(s)]: try every position from the left. *)
Fixpoint search_from (at_pos : option ascii -> string -> option string)
    (prev : option ascii) (s : string) : option string :=
  match at_pos prev s with
  | Some g => Some g
  | None =>
      match s with
      | EmptyString => None
      | String c s' => search_from at_pos (Some c) s'
      end
  end.

(** Group 1 of [AVAIL_PATTERN.search(content)], if it matches. *)
Definition AVAIL_PATTERN (content : string) : option string :=
  search_from avail_at None content.

(** Group 1 of [NAME_PATTERN.search(content)], if it matches. *)
Definition NAME_PATTERN (content : string) : option string :=
  search_from name_at None content.

(* ================================================================== *)
(** * Dynamically typed values *)

Inductive json : Type :=
  | JNull
  | JBool (b : bool)
  | JInt (n : Z)
  | JFloat (f : spec_float)
  | JStr (s : string)
  | JList (l : list json)
  | JDict (d : list (string * json)).

(** Python's truth value of a value. *)
Definition truthy (v : json) : bool :=
  match v with
  | JNull => false
  | JBool b => b
  | JInt n => negb (Z.eqb n 0)
  | JFloat (S754_zero _) => false
  | JFloat _ => true
  | JStr s => nonempty s
  | JList l => match l with [] => false | _ => true end
  | JDict d => match d with [] => false | _ => true end
  end.

(** [a or b] *)
Definition py_or (a b : json) : json := if truthy a then a else b.

(** An [Optional[str]] as a value. *)
Definition of_opt (o : option string) : json :=
  match o with Some s => JStr s | None => JNull end.

Definition is_none (v : json) : bool :=
  match v with JNull => true | _ => false end.

(** [s != v] for a string [s]: only an equal string is equal to it. *)
Definition str_ne (s : string) (v : json) : bool :=
  match v with JStr t => negb (String.eqb s t) | _ => true end.

(** ** Dictionaries keep insertion order *)

Section Dict.
Context {V : Type}.

(** [d.get(k)] *)
Fixpoint dict_get (k : string) (d : list (string * V)) : option V :=
  match d with
  | [] => None
  | (k', v) :: d' => if String.eqb k k' then Some v else dict_get k d'
  end.

(** [k in d] *)
Definition dict_mem (k : string) (d : list (string * V)) : bool :=
  match dict_get k d with Some _ => true | None => false end.

(** [d[k] = v]: an existing key keeps its place, a new one goes last. *)
Fixpoint dict_set (k : string) (v : V) (d : list (string * V)) : list (string * V) :=
  match d with
  | [] => [(k, v)]
  | (k', v') :: d' =>
      if String.eqb k k' then (k, v) :: d' else (k', v') :: dict_set k v d'
  end.

(** [d.pop(k, None)] *)
Fixpoint dict_pop (k : string) (d : list (string * V)) : list (string * V) :=
  match d with
  | [] => []
  | (k', v') :: d' =>
      if String.eqb k k' then d' else (k', v') :: dict_pop k d'
  end.

Definition keys (d : list (string * V)) : list string := map fst d.
End Dict.

(* ================================================================== *)
(** * Stock checking *)

Definition IN_STOCK_KEYWORDS : list string :=
  ["op voorraad"; "op=voorraad"; "online op voorraad"; "direct leverbaar";
   "morgen in huis"; "in stock"; "available"].

Definition OUT_STOCK_KEYWORDS : list string :=
  ["niet op voorraad"; "uitverkocht"; "tijdelijk uitverkocht";
   "niet beschikbaar"; "niet leverbaar"; "currently unavailable";
   "out of stock"].

Definition PREORDER_KEYWORDS : list string :=
  ["pre-order"; "preorder"; "pre-orderen"; "verwacht"].

(** One script element of type application/ld+json as BeautifulSoup
    presents it: [sc.string], [sc.text], and what [json.loads] returns on the
    content the loop selects ([None] when it raises). *)
Record script : Type := mkScript {
  sc_string : option string;
  sc_text : string;
  sc_json : option json
}.

(** A fetched page: the body and what BeautifulSoup extracts from it. *)
Record page : Type := mkPage {
  html : string;
  (** the script elements of type application/ld+json, in document order *)
  ld_scripts : list script;
  (** [soup.get_text] with a blank as separator *)
  visible_text : string;
  (** [soup.title.string] when there is a title element with a string *)
  title_string : option string
}.

(** The recursive search of the parsed document. *)
Fixpoint extract (d : json) : option (string * option string) :=
  match d with
  | JDict kv =>
      let nm := match dict_get "name" kv with
                | Some (JStr s) => Some s
                | _ => None
                end in
      match dict_get "offers" kv with
      | Some (JDict offers) =>
          match dict_get "availability" offers with
          | Some (JStr avail) => Some (avail, nm)
          | _ => None
          end
      | Some (JList offers) =>
          (fix first_offer (os : list json) : option (string * option string) :=
             match os with
             | [] => None
             | JDict o :: os' =>
                 match dict_get "availability" o with
                 | Some (JStr avail) => Some (avail, nm)
                 | _ => first_offer os'
                 end
             | _ :: os' => first_offer os'
             end) offers
      | _ => None
      end
  | JList l =>
      (fix first_el (els : list json) : option (string * option string) :=
         match els with
         | [] => None
         | el :: els' =>
             match extract el with
             | Some res => Some res
             | None => first_el els'
             end
         end) l
  | _ => None
  end.

(** The content of a script element the loop works on; [None] stands for
    [continue]. *)
Definition script_content (sc : script) : option string :=
  let content := match sc_string sc with
                 | Some s => if nonempty s then s else sc_text sc
                 | None => sc_text sc
                 end in
  if nonempty content then Some content else None.

(** The fast path of one iteration: the [return] it takes, if any. *)
Definition fast_path (content : string) : option (option string * option string) :=
  let m := AVAIL_PATTERN content in
  let name := NAME_PATTERN content in
  match m with
  | Some g =>
      let raw := lower g in
      if contains "instock" raw then Some (Some "InStock", name)
      else if contains "outofstock" raw then Some (Some "OutOfStock", name)
      else if contains "preorder" raw || contains "pre-order" raw
           then Some (Some "PreOrder", name)
      else None
  | None => None
  end.

(** The JSON path of one iteration: the [return] it takes, if any. *)
Definition json_path (sc : script) : option (option string * option string) :=
  match sc_json sc with
  | None => None
  | Some data =>
      match extract data with
      | Some (avail_raw, nm) =>
          let avail_raw_l := lower avail_raw in
          if contains "instock" avail_raw_l then Some (Some "InStock", nm)
          else if contains "outofstock" avail_raw_l then Some (Some "OutOfStock", nm)
          else if contains "preorder" avail_raw_l || contains "pre-order" avail_raw_l
               then Some (Some "PreOrder", nm)
          else Some (Some "Unknown", nm)
      | None => None
      end
  end.

(** One iteration of the loop over the scripts: [Some r] when it returns
    [r], [None] when the loop goes on to the next script. *)
Definition parse_block (sc : script) : option (option string * option string) :=
  match script_content sc with
  | None => None
  | Some content =>
      match fast_path content with
      | Some r => Some r
      | None => json_path sc
      end
  end.

Fixpoint parse_scripts (scripts : list script) : option string * option string :=
  match scripts with
  | [] => (None, None)
  | sc :: rest =>
      match parse_block sc with
      | Some r => r
      | None => parse_scripts rest
      end
  end.

Definition parse_jsonld_availability (p : page) : option string * option string :=
  parse_scripts (ld_scripts p).

Definition keyword_status_fallback (p : page) : string :=
  let body := lower (visible_text p) in
  if any_kw body IN_STOCK_KEYWORDS then "InStock"
  else if any_kw body OUT_STOCK_KEYWORDS then "OutOfStock"
  else if any_kw body PREORDER_KEYWORDS then "PreOrder"
  else "Unknown".

Definition extract_title (p : page) : option string :=
  match title_string p with
  | Some s => if nonempty s then Some (strip s) else None
  | None => None
  end.

Definition opt_nonempty (o : option string) : bool :=
  match o with Some s => nonempty s | None => false end.

(** [check_url], given what [fetch_html] returned. *)
Definition check_url (fetched : option page) : string * option string :=
  match fetched with
  | None => ("Unknown", None)
  | Some p =>
      if negb (nonempty (html p)) then ("Unknown", None)
      else
        let '(status, name) := parse_jsonld_availability p in
        let status :=
          match status with
          | Some s =>
              if negb (nonempty s) || String.eqb s "Unknown"
              then keyword_status_fallback p else s
          | None => keyword_status_fallback p
          end in
        let title := if opt_nonempty name then name else extract_title p in
        (status, title)
  end.

(* ================================================================== *)
(** * Exceptions *)

(** The exceptions the engine can meet; all of them are subclasses of
    [Exception], so [except Exception] handles each. *)
Inductive exn : Type :=
  | AttributeError
  | TypeError
  | ValueError
  | OverflowError
  | JSONDecodeError
  | OSError
  | UnicodeEncodeError
  | HTTPException.

Inductive res (A : Type) : Type :=
  | Ok (a : A)
  | Raise (e : exn).
Arguments Ok {A} a.
Arguments Raise {A} e.

#[global] Instance res_ret : MRet res := fun A a => Ok a.

#[global] Instance res_bind : MBind res := fun A B k m =>
  match m with
  | Ok a => k a
  | Raise e => Raise e
  end.

(** [try: body  except Exception: handler] *)
Definition try_except {A : Type} (body : res A) (handler : res A) : res A :=
  match body with
  | Ok a => Ok a
  | Raise _ => handler
  end.

(* ================================================================== *)
(** * Conversions of the standard library *)

Definition digit_val (c : ascii) : option Z :=
  if in_range 48 57 c then Some (Z.of_nat (nat_of_ascii c) - 48)%Z else None.

(** The digits of a decimal literal after its first digit: single
    underscores may separate digits. *)
Fixpoint more_digits (acc : Z) (after_underscore : bool) (s : string) : option Z :=
  match s with
  | EmptyString => if after_underscore then None else Some acc
  | String c s' =>
      if Ascii.eqb c "_" then
        if after_underscore then None else more_digits acc true s'
      else
        match digit_val c with
        | Some d => more_digits (10 * acc + d)%Z false s'
        | None => None
        end
  end.

Definition unsigned_literal (s : string) : option Z :=
  match s with
  | String c s' =>
      match digit_val c with
      | Some d => more_digits d false s'
      | None => None
      end
  | EmptyString => None
  end.

(** The white space [int] skips around an ASCII literal: that of C's
    [isspace]. *)
Definition is_c_space (c : ascii) : bool :=
  in_range 9 13 c || Ascii.eqb c " ".

(** [int(s)] for a string (base 10; the interpreter's limit on the number
    of digits is not modelled). *)
Definition int_of_string (s : string) : res Z :=
  let t := strip_by is_c_space s in
  let '(negative, body) :=
    match t with
    | String c t' =>
        if Ascii.eqb c "-" then (true, t')
        else if Ascii.eqb c "+" then (false, t')
        else (false, t)
    | EmptyString => (false, t)
    end in
  match unsigned_literal body with
  | Some n => Ok (if negative then (- n)%Z else n)
  | None => Raise ValueError
  end.

(** [int(f)] for a float: truncation towards zero. *)
Definition int_of_float (f : spec_float) : res Z :=
  match f with
  | S754_zero _ => Ok 0%Z
  | S754_infinity _ => Raise OverflowError
  | S754_nan => Raise ValueError
  | S754_finite s m e =>
      let magnitude := Z.shiftl (Z.pos m) e in
      Ok (if s then (- magnitude)%Z else magnitude)
  end.

(** [int(v)] *)
Definition py_int (v : json) : res Z :=
  match v with
  | JInt n => Ok n
  | JBool b => Ok (if b then 1 else 0)%Z
  | JFloat f => int_of_float f
  | JStr s => int_of_string s
  | JNull | JList _ | JDict _ => Raise TypeError
  end.

(** [d.get(k, dflt)]: only a dict has the method. *)
Definition py_get (d : json) (k : string) (dflt : json) : res json :=
  match d with
  | JDict kv => Ok (default dflt (dict_get k kv))
  | _ => Raise AttributeError
  end.

(** [d.items()]: only a dict has the method. *)
Definition py_items (d : json) : res (list (string * json)) :=
  match d with
  | JDict kv => Ok kv
  | _ => Raise AttributeError
  end.

(* ================================================================== *)
(** * The tracked items and the configuration *)

Definition DEFAULT_INTERVAL_SEC : Z := (5 * 60)%Z.
Definition MIN_INTERVAL_SEC : Z := 60%Z.

Record TrackedItem : Type := mkItem {
  url : json;
  nickname : json;
  last_status : json;
  last_title : json;
  last_checked : json
}.

(** A reference to a [TrackedItem] object. *)
Abbreviation loc := nat (only parsing).

(** The objects allocated so far; an object is never freed and [alloc]
    appends. *)
Abbreviation heap := (list TrackedItem) (only parsing).

Definition null_item : TrackedItem := mkItem JNull JNull JNull JNull JNull.

(** The object behind a reference.  A reference held by the dictionary or
    by a snapshot always points into the heap (lemma [wf_refs] below keeps
    that); [null_item] is what a reference to nothing would read. *)
Definition deref (h : heap) (r : loc) : TrackedItem := default null_item (h !! r).

Definition alloc (h : heap) (it : TrackedItem) : loc * heap :=
  (length h, h ++ [it]).

Record BotConfig : Type := mkConfig {
  interval_sec : Z;
  alert_channel_id : json;
  items : option (list (string * loc))
}.

(** [dataclasses.asdict(item)] *)
Definition asdict (it : TrackedItem) : json :=
  JDict [("url", url it); ("nickname", nickname it);
         ("last_status", last_status it); ("last_title", last_title it);
         ("last_checked", last_checked it)].

Definition FIELDS : list string :=
  ["url"; "nickname"; "last_status"; "last_title"; "last_checked"].

(** The constructor called with the entries of [it] as keyword arguments:
    [it] must be a mapping, every key must be a field, and [url], the field
    without a default, must be given. *)
Definition TrackedItem_kwargs (it : json) : res TrackedItem :=
  match it with
  | JDict kw =>
      if forallb (fun k => existsb (String.eqb k) FIELDS) (keys kw) then
        match dict_get "url" kw with
        | Some u =>
            Ok (mkItem u
                  (default JNull (dict_get "nickname" kw))
                  (default JNull (dict_get "last_status" kw))
                  (default JNull (dict_get "last_title" kw))
                  (default JNull (dict_get "last_checked" kw)))
        | None => Raise TypeError
        end
      else Raise TypeError
  | _ => Raise TypeError
  end.

(** [{url: asdict(item) for url, item in d.items()}] *)
Fixpoint items_to_dict (h : heap) (d : list (string * loc))
    (acc : list (string * json)) : list (string * json) :=
  match d with
  | [] => acc
  | (u, r) :: d' => items_to_dict h d' (dict_set u (asdict (deref h r)) acc)
  end.

Definition to_dict (h : heap) (c : BotConfig) : json :=
  JDict [("interval_sec", JInt (interval_sec c));
         ("alert_channel_id", alert_channel_id c);
         ("items", JDict (items_to_dict h (default [] (items c)) []))].

(** The dict comprehension of [from_dict]: one new object per entry of
    [kvs], built from the entry's keyword arguments. *)
Fixpoint items_from_dict (kvs : list (string * json)) (h : heap)
    (acc : list (string * loc)) : res (heap * list (string * loc)) :=
  match kvs with
  | [] => Ok (h, acc)
  | (u, it) :: kvs' =>
      obj ← TrackedItem_kwargs it ;
      let '(r, h') := alloc h obj in
      items_from_dict kvs' h' (dict_set u r acc)
  end.

(** [BotConfig.from_dict(d)]; the objects it creates make up the heap. *)
Definition from_dict (d : json) : res (heap * BotConfig) :=
  its ← py_get d "items" JNull ;
  kvs ← py_items (py_or its (JDict [])) ;
  '(h, its') ← items_from_dict kvs [] [] ;
  n ← py_get d "interval_sec" (JInt DEFAULT_INTERVAL_SEC) ;
  n' ← py_int n ;
  ch ← py_get d "alert_channel_id" JNull ;
  Ok (h, mkConfig n' ch (Some its')).

(* ================================================================== *)
(** * Persistence *)

(** The state file, by what the program can observe of it.  The text that
    [json.dump] writes for a document is one that [json.load] reads as that
    document: the file is modelled by the document, not by its characters. *)
Inductive file : Type :=
  | Missing                (** [os.path.exists] is false *)
  | Unreadable             (** opening or decoding it raises *)
  | Malformed              (** its text is no JSON document: [json.load]
                               raises; the empty file and every proper
                               prefix of a dumped object are such texts *)
  | Document (j : json).   (** its text is a JSON document that [json.load]
                               reads as [j] *)

Definition path_exists (f : file) : bool :=
  match f with Missing => false | _ => true end.

(** Opening the state file for reading, followed by [json.load]. *)
Definition json_load (f : file) : res json :=
  match f with
  | Missing | Unreadable => Raise OSError
  | Malformed => Raise JSONDecodeError
  | Document j => Ok j
  end.

(** [BotConfig(items={})] *)
Definition empty_config : heap * BotConfig :=
  ([], mkConfig DEFAULT_INTERVAL_SEC JNull (Some [])).

Definition load_state (f : file) : res (heap * BotConfig) :=
  if negb (path_exists f) then Ok empty_config
  else try_except (data ← json_load f ; from_dict data) (Ok empty_config).

(** What [save_state] does to the file, step by step.  Opening with mode
    [w] truncates the file at once; [json.dump] then writes the text in
    chunks; leaving the [with] block flushes the last of them. *)
Inductive write_step : Type :=
  | OpenTruncate
  | DumpChunks
  | FlushClose (j : json).

Definition do_step (s : write_step) (f : file) : file :=
  match s with
  | OpenTruncate => Malformed
  | DumpChunks => Malformed
  | FlushClose j => Document j
  end.

Definition save_state_steps (h : heap) (c : BotConfig) : list write_step :=
  let tmp := to_dict h c in
  [OpenTruncate; DumpChunks; FlushClose tmp].

(** The file after the first [k] steps: where a crash at that point
    leaves it. *)
Definition file_after (k : nat) (steps : list write_step) (f : file) : file :=
  fold_left (fun f s => do_step s f) (take k steps) f.

Definition save_state (h : heap) (c : BotConfig) (f : file) : file :=
  let steps := save_state_steps h c in
  file_after (length steps) steps f.

(** [sys.get_int_max_str_digits()]: an integer of more decimal digits is
    not converted to text. *)
Definition MAX_STR_DIGITS : Z := 4300.

Definition int_writable (n : Z) : bool := (Z.abs n <? 10 ^ MAX_STR_DIGITS)%Z.

(** The exception of the first value, in the order of the dump, that
    [json.dump(tmp, f, ensure_ascii=False, indent=2)] cannot write into a file
    opened as UTF-8: a string with a lone surrogate, or an integer over the
    digit limit.  [None]: the whole document is written. *)
Fixpoint dump_error (j : json) : option exn :=
  match j with
  | JStr s => if encodable s then None else Some UnicodeEncodeError
  | JInt n => if int_writable n then None else Some ValueError
  | JList l =>
      (fix elements (l : list json) : option exn :=
         match l with
         | [] => None
         | x :: l' =>
             match dump_error x with
             | Some e => Some e
             | None => elements l'
             end
         end) l
  | JDict d =>
      (fix entries (d : list (string * json)) : option exn :=
         match d with
         | [] => None
         | (k, v) :: d' =>
             if encodable k then
               match dump_error v with
               | Some e => Some e
               | None => entries d'
               end
             else Some UnicodeEncodeError
         end) d
  | _ => None
  end.

(** [save_state] with its ways of failing.  If the file cannot be opened
    for writing, [open] raises and the file is as it was.  If a value of the
    document cannot be written, the dump raises after the file was
    truncated, and what was written before that value is a proper prefix of
    the text.  Otherwise the save completes. *)
Definition save_state_run (writable : bool) (h : heap) (c : BotConfig)
    (f : file) : res unit * file :=
  let tmp := to_dict h c in
  if negb writable then (Raise OSError, f)
  else
    match dump_error tmp with
    | None => (Ok tt, save_state h c f)
    | Some e => (Raise e, file_after 2 (save_state_steps h c) f)
    end.

(* ================================================================== *)
(** * The running bot *)

(** What is interpolated into the message handed to [channel.send]: the
    display name, the old and the new status, the link and the time stamp
    (the site line is [human_domain] of the link). *)
Record alert : Type := mkAlert {
  a_name : json;
  a_old : json;
  a_new : string;
  a_url : string;
  a_ts : string
}.

(** The globals of the module ([cfg] and the objects it refers to), the
    state file, and the messages delivered to the alert channel so far. *)
Record state : Type := mkState {
  objects : heap;
  cfg : BotConfig;
  disk : file;
  sent : list alert
}.

(** A computation that reads and mutates the globals and may raise; what it
    has mutated before raising stays mutated. *)
Definition M (A : Type) : Type := state -> res A * state.

#[global] Instance M_ret : MRet M := fun A a st => (Ok a, st).

#[global] Instance M_bind : MBind M := fun A B k m st =>
  match m st with
  | (Ok a, st') => k a st'
  | (Raise e, st') => (Raise e, st')
  end.

Definition raise {A : Type} (e : exn) : M A := fun st => (Raise e, st).

Definition get_cfg : M BotConfig := fun st => (Ok (cfg st), st).

Definition set_cfg (c : BotConfig) : M unit :=
  fun st => (Ok tt, mkState (objects st) c (disk st) (sent st)).

(** [item.f] for the object [item] refers to. *)
Definition getattr (item : loc) (f : TrackedItem -> json) : M json :=
  fun st => (Ok (f (deref (objects st) item)), st).

(** An assignment to an attribute of the object [item] refers to. *)
Definition setattr (item : loc) (upd : TrackedItem -> TrackedItem) : M unit :=
  fun st =>
    (Ok tt,
     mkState (<[item := upd (deref (objects st) item)]> (objects st))
       (cfg st) (disk st) (sent st)).

Definition set_last_status (v : json) (it : TrackedItem) : TrackedItem :=
  mkItem (url it) (nickname it) v (last_title it) (last_checked it).

Definition set_last_title (v : json) (it : TrackedItem) : TrackedItem :=
  mkItem (url it) (nickname it) (last_status it) v (last_checked it).

Definition set_last_checked (v : json) (it : TrackedItem) : TrackedItem :=
  mkItem (url it) (nickname it) (last_status it) (last_title it) v.

(** A new object. *)
Definition new_item (it : TrackedItem) : M loc :=
  fun st =>
    let '(r, h) := alloc (objects st) it in
    (Ok r, mkState h (cfg st) (disk st) (sent st)).

(** [cfg.items], which must not be [None] where it is subscripted, searched
    or iterated. *)
Definition the_items (e : exn) : M (list (string * loc)) :=
  c ← get_cfg ;
  match items c with
  | Some d => mret d
  | None => raise e
  end.

Definition set_items (d : list (string * loc)) : M unit :=
  c ← get_cfg ;
  set_cfg (mkConfig (interval_sec c) (alert_channel_id c) (Some d)).

(** [save_state(cfg)] run to completion: the runs of the loop and of the
    commands modelled here are those in which every save completes. *)
Definition save : M unit :=
  fun st =>
    (Ok tt,
     mkState (objects st) (cfg st) (save_state (objects st) (cfg st) (disk st))
       (sent st)).

(** What Discord does when an alert is to be delivered: whether
    [bot.get_channel] finds the channel, what [channel.send] raises if it
    fails, and the local time as [time.strftime] prints it. *)
Record discord : Type := mkDiscord {
  channel_found : bool;
  send_failure : option exn;
  strftime : string
}.

Definition send_alert (env : discord) (u : string) (title old : json)
    (new : string) : M unit :=
  c ← get_cfg ;
  if negb (truthy (alert_channel_id c)) then mret tt
  else if negb (channel_found env) then mret tt
  else
    let name := py_or title (JStr u) in
    let old_s := py_or old (JStr "Unknown") in
    let ts := strftime env in
    match send_failure env with
    | Some e => raise e
    | None =>
        fun st =>
          (Ok tt,
           mkState (objects st) (cfg st) (disk st)
             (sent st ++ [mkAlert name old_s new u ts]))
    end.

(** What the environment supplies for one item of a sweep: the outcome of
    the fetch, the clock, and Discord. *)
Record turn : Type := mkTurn {
  fetched : option page;
  clock : spec_float;
  chat : discord
}.

(** The change detector, the first lines of the body of the loop: the two
    flags [changed] and [first_time], from the status on record and the
    status just observed. *)
Definition detect (last : json) (status : string) : bool * bool :=
  let changed := str_ne status last && negb (is_none last) in
  let first_time := is_none last in
  let changed := if first_time && String.eqb status "InStock" then true else changed in
  (changed, first_time).

(** The body of the [for] loop of [monitor_loop] for the snapshot entry
    [(u, item)]. *)
Definition sweep_item (u : string) (item : loc) (t : turn) : M unit :=
  let '(status, title) := check_url (fetched t) in
  last ← getattr item last_status ;
  let '(changed, first_time) := detect last status in
  setattr item (set_last_status (JStr status)) ;;
  old_title ← getattr item last_title ;
  setattr item (set_last_title (py_or (of_opt title) old_title)) ;;
  setattr item (set_last_checked (JFloat (clock t))) ;;
  d ← the_items TypeError ;
  set_items (dict_set u item d) ;;
  save ;;
  if changed then
    title' ← getattr item last_title ;
    old ← (if negb first_time then getattr item last_status else mret JNull) ;
    send_alert (chat t) u title' old status
  else mret tt.

(** ** The commands *)

Inductive command : Type :=
  | SetChannel (id : Z)
  | SetInterval (minutes : Z)
  | TrackAdd (u : string) (nick : option string)
  | TrackRemove (identifier : string).

Inductive reply : Type :=
  | ChannelSet
  | IntervalSet (minutes : Z)
  | NotAProductUrl
  | AlreadyTracked
  | Added
  | Removed
  | NoMatch.

Definition set_channel (id : Z) : M reply :=
  c ← get_cfg ;
  set_cfg (mkConfig (interval_sec c) (JInt id) (items c)) ;;
  save ;;
  mret ChannelSet.

Definition set_interval (minutes : Z) : M reply :=
  let minutes := Z.max 1 minutes in
  c ← get_cfg ;
  set_cfg (mkConfig (minutes * 60)%Z (alert_channel_id c) (items c)) ;;
  save ;;
  mret (IntervalSet minutes).

Definition track_add (u : string) (nick : option string) : M reply :=
  if negb (contains "bol.com" u || contains "mediamarkt" u) then mret NotAProductUrl
  else
    c ← get_cfg ;
    (if items c is None then set_items [] else mret tt) ;;
    d ← the_items TypeError ;
    if dict_mem u d then mret AlreadyTracked
    else
      item ← new_item (mkItem (JStr u) (of_opt nick) JNull JNull JNull) ;
      set_items (dict_set u item d) ;;
      save ;;
      mret Added.

(** The loop of [track_remove] that looks for the first item whose nickname
    is [identifier] up to case. *)
Fixpoint find_nickname (h : heap) (identifier : string)
    (d : list (string * loc)) : res (option string) :=
  match d with
  | [] => Ok None
  | (u, item) :: d' =>
      let nick := nickname (deref h item) in
      if truthy nick then
        match nick with
        | JStr s =>
            if String.eqb (lower s) (lower identifier) then Ok (Some u)
            else find_nickname h identifier d'
        | _ => Raise AttributeError
        end
      else find_nickname h identifier d'
  end.

Definition track_remove (identifier : string) : M reply :=
  d ← the_items TypeError ;
  if dict_mem identifier d then
    set_items (dict_pop identifier d) ;;
    save ;;
    mret Removed
  else
    to_del ← (fun st => (find_nickname (objects st) identifier d, st)) ;
    if opt_nonempty to_del then
      set_items (dict_pop (default EmptyString to_del) d) ;;
      save ;;
      mret Removed
    else mret NoMatch.

Definition run_command (c : command) : M reply :=
  match c with
  | SetChannel id => set_channel id
  | SetInterval minutes => set_interval minutes
  | TrackAdd u nick => track_add u nick
  | TrackRemove identifier => track_remove identifier
  end.

(** A command is handled in a task of its own: if the handler raises, the
    loop does not see it. *)
Definition handle (c : command) : M unit :=
  fun st => (Ok tt, snd (run_command c st)).

Fixpoint handle_all (cs : list command) : M unit :=
  match cs with
  | [] => mret tt
  | c :: cs' => handle c ;; handle_all cs'
  end.

(** ** The loop *)

(** One iteration of the [for] loop as the scheduler runs it: the commands
    handled while the loop is suspended (in the fetch of this item, or
    before it in the send or the sleep of the previous one), then the body
    with what the environment supplies. *)
Record round : Type := mkRound {
  meanwhile : list command;
  supplies : turn
}.

(** The [for] loop over the snapshot.  The environment supplies one round
    per entry; where it stops, the process was stopped. *)
Fixpoint sweep (snapshot : list (string * loc)) (rounds : list round) : M unit :=
  match snapshot, rounds with
  | (u, item) :: snapshot', r :: rounds' =>
      handle_all (meanwhile r) ;;
      sweep_item u item (supplies r) ;;
      sweep snapshot' rounds'
  | _, _ => mret tt
  end.

(** One iteration of the [while] loop: the commands handled during the sleep
    before the sweep, the snapshot [list(cfg.items.items())], the sweep. *)
Record sweep_plan : Type := mkPlan {
  before : list command;
  rounds : list round
}.

Definition one_sweep (p : sweep_plan) : M unit :=
  handle_all (before p) ;;
  snapshot ← the_items AttributeError ;
  sweep snapshot (rounds p).

Fixpoint monitor_loop (plans : list sweep_plan) : M unit :=
  match plans with
  | [] => mret tt
  | p :: plans' => one_sweep p ;; monitor_loop plans'
  end.

(** The module at import time: [cfg = load_state()], then the default alert
    channel of the environment variable, used if no channel is on record and
    [int] accepts it. *)
Definition startup (f : file) (ALERT_CHANNEL_ID : option string) : res state :=
  '(h, c) ← load_state f ;
  let c :=
    if opt_nonempty ALERT_CHANNEL_ID && negb (truthy (alert_channel_id c)) then
      match int_of_string (default EmptyString ALERT_CHANNEL_ID) with
      | Ok id => mkConfig (interval_sec c) (JInt id) (items c)
      | Raise _ => c
      end
    else c in
  Ok (mkState h c f []).

(* ================================================================== *)
(** * The wording of the specification *)

(** The normalisation of an availability token as the specification words
    it: the first of the three markers the lowercased token contains decides,
    and a token with none of them is Unknown. *)
Definition normalized (token : string) : string :=
  let t := lower token in
  if contains "instock" t then "InStock"
  else if contains "outofstock" t then "OutOfStock"
  else if contains "preorder" t || contains "pre-order" t then "PreOrder"
  else "Unknown".

(** Some phrase of the set [words] occurs in [body]. *)
Definition mentions (body : string) (words : list string) : Prop :=
  exists w, In w words /\ contains w body = true.

(** The configuration by value: the settings and, in the order of the
    dictionary, each tracked url with the fields of its item. *)
Definition config_values (h : heap) (c : BotConfig)
    : Z * json * option (list (string * TrackedItem)) :=
  (interval_sec c, alert_channel_id c,
   option_map (map (fun e : string * loc => (fst e, deref h (snd e)))) (items c)).

(** The items as [to_dict] writes them when no url occurs twice. *)
Definition dumped_items (h : heap) (d : list (string * loc)) : list (string * json) :=
  map (fun e => (fst e, asdict (deref h (snd e)))) d.

(** The object [it] after the three assignments of the body of the loop:
    the status observed, the title observed or else the one on record, the
    time of the check. *)
Definition checked_item (it : TrackedItem) (status : string)
    (title : option string) (now : spec_float) : TrackedItem :=
  mkItem (url it) (nickname it) (JStr status)
    (py_or (of_opt title) (last_title it)) (JFloat now).

(** A JSON text is easier to read with apostrophes: [dq s] is [s] with each
    apostrophe turned into a double quote. *)
Fixpoint dq (s : string) : string :=
  match s with
  | EmptyString => EmptyString
  | String c s' => String (if Ascii.eqb c "'" then quote else c) (dq s')
  end.

(* ================================================================== *)
(** * Concrete inputs *)

(** A product page whose structured data wraps the product in a graph and
    declares it discontinued, while the visible text says it is in stock. *)
Definition graph_block : string :=
  dq "{'@graph': [{'@type': 'Product', 'name': 'Booster Box', 'offers': {'@type': 'Offer', 'availability': 'https://schema.org/Discontinued'}}]}".

Definition graph_json : json :=
  JDict [("@graph",
          JList [JDict [("@type", JStr "Product");
                        ("name", JStr "Booster Box");
                        ("offers",
                         JDict [("@type", JStr "Offer");
                                ("availability",
                                 JStr "https://schema.org/Discontinued")])]])].

Definition graph_script : script :=
  mkScript (Some graph_block) graph_block (Some graph_json).

Definition graph_page : page :=
  mkPage
    (String.append
       (dq "<html><head><title>Booster Box | shop</title><script type='application/ld+json'>")
       (String.append graph_block
          "</script></head><body><h1>Booster Box</h1><p>Op voorraad</p></body></html>"))
    [graph_script]
    "Booster Box | shop Booster Box Op voorraad"
    (Some "Booster Box | shop").

(** A block that offers the product in stock. *)
Definition instock_block : string :=
  dq "{'@type': 'Product', 'name': 'Elite Trainer Box', 'offers': {'availability': 'http://schema.org/InStock'}}".

Definition instock_json : json :=
  JDict [("@type", JStr "Product");
         ("name", JStr "Elite Trainer Box");
         ("offers", JDict [("availability", JStr "http://schema.org/InStock")])].

Definition instock_script : script :=
  mkScript (Some instock_block) instock_block (Some instock_json).

(** A script element without content. *)
Definition blank_script : script := mkScript None EmptyString None.

(** A configuration with two items, one checked before and one never. *)
Definition two_items_heap : heap :=
  [mkItem (JStr "https://www.bol.com/nl/nl/p/etb/1/") (JStr "etb")
     (JStr "OutOfStock") (JStr "Elite Trainer Box")
     (JFloat (S754_finite false 7175001601 (-2)));
   mkItem (JStr "https://www.mediamarkt.nl/nl/product/_booster-2.html") JNull
     JNull JNull JNull].

Definition two_items_config : BotConfig :=
  mkConfig 600 (JInt 123456789012345678)
    (Some [("https://www.bol.com/nl/nl/p/etb/1/", 0);
           ("https://www.mediamarkt.nl/nl/product/_booster-2.html", 1)]).

Definition two_items_state : state :=
  mkState two_items_heap two_items_config
    (Document (to_dict two_items_heap two_items_config)) [].

(** A property of the state that a computation keeps, whether it returns
    or raises. *)
Definition preserved (P : state -> Prop) {A : Type} (m : M A) : Prop :=
  forall st, P st -> P (snd (m st)).

(** The object behind [r] has a title on record. *)
Definition titled (r : loc) (st : state) : Prop :=
  last_title (deref (objects st) r) <> JNull.

(** The references of the dictionary point into the heap. *)
Definition wf_refs (st : state) : Prop :=
  forall d, items (cfg st) = Some d ->
  NoDup (keys d) /\ Forall (fun e : string * loc => snd e < length (objects st)) d.

(** A snapshot whose references point into the heap. *)
Definition wf_snapshot (snapshot : list (string * loc)) (st : state) : Prop :=
  wf_refs st /\ Forall (fun e : string * loc => snd e < length (objects st)) snapshot.

(** A page whose structured data offers the product in stock. *)
Definition instock_page : page :=
  mkPage
    (String.append
       (dq "<html><head><title>Elite Trainer Box</title><script type='application/ld+json'>")
       (String.append instock_block
          "</script></head><body><p>Uitverkocht</p></body></html>"))
    [instock_script]
    "Elite Trainer Box Uitverkocht"
    (Some "Elite Trainer Box").

(** Discord delivering, and Discord refusing the message. *)
Definition delivering : discord := mkDiscord true None "2026-11-03 12:05:00".

Definition url_etb : string := "https://www.bol.com/nl/nl/p/etb/1/".
Definition url_booster : string := "https://www.mediamarkt.nl/nl/product/_booster-2.html".

(** What the environment supplies for an item whose fetch fails. *)
Definition failed_turn : turn :=
  mkTurn None (S754_finite false 7175004005 (-2)) delivering.

(** A sweep over the two items in which both pages show the product in
    stock and Discord delivers. *)
Definition instock_turn (chat : discord) : turn :=
  mkTurn (Some instock_page) (S754_finite false 7175002803 (-2)) chat.

(** The same sweep, with the second item removed by a command while the loop
    is busy with the first. *)
Definition plan_with_removal : sweep_plan :=
  mkPlan [] [mkRound [] (instock_turn delivering);
             mkRound [TrackRemove url_booster] (instock_turn delivering)].


(* ================================================================== *)
(** * Further notions used in the statements *)

(** The one-character string. *)
Definition char_string (c : ascii) : string := String c EmptyString.

(** The key of the name pattern: the word name between double quotes. *)
Definition quoted_name : string := String quote ("name" ++ char_string quote).


(** The objects a snapshot refers to. *)
Definition refs (snapshot : list (string * loc)) : list loc := map snd snapshot.

(** An object as [track_add] creates it: never observed. *)
Definition unobserved (it : TrackedItem) : Prop :=
  last_status it = JNull /\ last_title it = JNull /\ last_checked it = JNull.

(** The objects indexed from [n] on are unobserved. *)
Definition unobserved_from (n : nat) (h : heap) : Prop :=
  forall r, n <= r -> r < length h -> unobserved (deref h r).

(** The nickname [nick] does not make [find_nickname] stop for
    [identifier]: it is false, or a string of characters up to U+00FF that
    differs from it even up to case. *)
Definition passes_nickname (identifier : string) (nick : json) : Prop :=
  truthy nick = false \/
  exists s, nick = JStr s /\ latin1 s = true /\ lower s <> lower identifier.

(** A value the constructor of [TrackedItem] accepts as keyword arguments:
    a dictionary whose keys are fields and that gives the url. *)
Definition item_document (it : json) : Prop :=
  exists kw, it = JDict kw /\
    Forall (fun k => In k FIELDS) (keys kw) /\ dict_mem "url" kw = true.

(** A state with one item tracked under the nickname Booster, and three
    objects of which the dictionary holds two. *)
Definition nick_state : state :=
  mkState
    [mkItem (JStr url_etb) JNull (JStr "InStock") (JStr "Elite Trainer Box")
       (JFloat (S754_finite false 7175001601 (-2)));
     mkItem (JStr url_booster) (JStr "Booster") (JStr "Unknown") JNull
       (JFloat (S754_finite false 7175001601 (-2)))]
    (mkConfig 300 JNull (Some [(url_etb, 0); (url_booster, 1)]))
    Missing [].

(** A page with two blocks: the first offers the product with a token that
    has none of the markers, the second offers it in stock; its text says it
    is sold out. *)
Definition soldout_script : script :=
  mkScript (Some (dq "{'offers': {'availability': 'SoldOut'}}")) EmptyString
    (Some (JDict [("offers", JDict [("availability", JStr "SoldOut")])])).

Definition two_block_page : page :=
  mkPage "<html>two blocks</html>" [soldout_script; instock_script]
    "Uitverkocht" None.

(** ** Phrases in a text

    What it is for a phrase to occur in a text, said without the functions
    of the program. *)









(** The letter e with an acute accent, small (U+00E9) and capital
    (U+00C9), in UTF-8. *)
Definition e_acute : string := String "195"%char (String "169"%char EmptyString).
Definition E_acute : string := String "195"%char (String "137"%char EmptyString).



(** A state with one item tracked under a nickname with an accented
    letter. *)
Definition accent_state : state :=
  mkState
    [mkItem (JStr url_etb) JNull (JStr "InStock") (JStr "Elite Trainer Box")
       (JFloat (S754_finite false 7175001601 (-2)));
     mkItem (JStr url_booster) (JStr ("Pok" ++ e_acute ++ "mon")) (JStr "Unknown")
       JNull (JFloat (S754_finite false 7175001601 (-2)))]
    (mkConfig 300 JNull (Some [(url_etb, 0); (url_booster, 1)]))
    Missing [].

(** ** Configurations that can and cannot be saved *)

(** A value that is no container: [None], a boolean, a number or a
    string, as the fields of [TrackedItem] and the channel are declared. *)
Definition scalar (j : json) : bool :=
  match j with
  | JList _ | JDict _ => false
  | _ => true
  end.

Definition flat_item (it : TrackedItem) : bool :=
  scalar (url it) && scalar (nickname it) && scalar (last_status it)
  && scalar (last_title it) && scalar (last_checked it).

(** The channel and the fields of every tracked item are scalars. *)
Definition flat (h : heap) (c : BotConfig) : bool :=
  scalar (alert_channel_id c)
  && forallb (fun e : string * loc => flat_item (deref h (snd e)))
       (default [] (items c)).

(** The lone surrogate U+D800, which a [str] can hold ([json.loads] gives
    one for the escape of a single surrogate) and UTF-8 cannot encode. *)
Definition lone_surrogate : string :=
  String "237"%char (String "160"%char (String "128"%char EmptyString)).

(** One item whose title on record ends in a lone surrogate. *)
Definition surrogate_heap : heap :=
  [mkItem (JStr url_etb) JNull (JStr "InStock")
     (JStr ("Elite Trainer Box " ++ lone_surrogate))
     (JFloat (S754_finite false 7175001601 (-2)))].

Definition surrogate_config : BotConfig :=
  mkConfig 300 (JInt 42) (Some [(url_etb, 0)]).

(* ================================================================== *)
(** * Status extraction *)

Lemma any_kw_mentions (body : string) (words : list string) :
  any_kw body words = true <-> mentions body words.
Proof. unfold any_kw, mentions. apply existsb_exists. Qed.

Lemma any_kw_silent (body : string) (words : list string) :
  any_kw body words = false <-> ~ mentions body words.
Proof.
  rewrite <- any_kw_mentions. destruct (any_kw body words); split; intros H;
    try reflexivity; try discriminate; congruence.
Qed.

Lemma parse_scripts_skip (pre rest : list script) :
  Forall (fun b => parse_block b = None) pre ->
  parse_scripts (pre ++ rest) = parse_scripts rest.
Proof.
  induction 1 as [|b pre Hb _ IH]; simpl; [reflexivity|].
  rewrite Hb. exact IH.
Qed.

Lemma fast_path_recognised (content tok : string) :
  AVAIL_PATTERN content = Some tok ->
  normalized tok <> "Unknown" ->
  fast_path content = Some (Some (normalized tok), NAME_PATTERN content).
Proof.
  intros Hm Hn. unfold fast_path. rewrite Hm. unfold normalized in *.
  destruct (contains "instock" (lower tok)); [reflexivity|].
  destruct (contains "outofstock" (lower tok)); [reflexivity|].
  destruct (contains "preorder" (lower tok) || contains "pre-order" (lower tok));
    [reflexivity|].
  contradiction Hn; reflexivity.
Qed.

Lemma fast_path_unrecognised (content : string) :
  (forall tok, AVAIL_PATTERN content = Some tok -> normalized tok = "Unknown") ->
  fast_path content = None.
Proof.
  intros H. unfold fast_path.
  destruct (AVAIL_PATTERN content) as [tok|]; [|reflexivity].
  specialize (H tok eq_refl). unfold normalized in H.
  destruct (contains "instock" (lower tok)); [discriminate|].
  destruct (contains "outofstock" (lower tok)); [discriminate|].
  destruct (contains "preorder" (lower tok) || contains "pre-order" (lower tok));
    [discriminate|reflexivity].
Qed.

Lemma json_path_found (sc : script) (data : json) (tok : string) (nm : option string) :
  sc_json sc = Some data ->
  extract data = Some (tok, nm) ->
  json_path sc = Some (Some (normalized tok), nm).
Proof.
  intros Hd He. unfold json_path, normalized. rewrite Hd, He.
  destruct (contains "instock" (lower tok)); [reflexivity|].
  destruct (contains "outofstock" (lower tok)); [reflexivity|].
  destruct (contains "preorder" (lower tok) || contains "pre-order" (lower tok));
    reflexivity.
Qed.

Lemma normalized_cases (tok : string) :
  normalized tok = "InStock" \/ normalized tok = "OutOfStock" \/
  normalized tok = "PreOrder" \/ normalized tok = "Unknown".
Proof.
  unfold normalized.
  destruct (contains "instock" (lower tok)); [tauto|].
  destruct (contains "outofstock" (lower tok)); [tauto|].
  destruct (contains "preorder" (lower tok) || contains "pre-order" (lower tok)); tauto.
Qed.

(** A conclusive status of the structured-data stage is the status of the
    page, whatever its visible text says. *)
Lemma check_url_conclusive (p : page) (s : string) :
  nonempty (html p) = true ->
  fst (parse_jsonld_availability p) = Some s ->
  nonempty s = true -> s <> "Unknown" ->
  fst (check_url (Some p)) = s.
Proof.
  intros Hh Hs Hne Hu. unfold check_url. rewrite Hh. simpl.
  destruct (parse_jsonld_availability p) as [st nm]. simpl in Hs. subst st.
  rewrite Hne. cbn [negb orb fst].
  destruct (String.eqb s "Unknown") eqn:E; [|reflexivity].
  apply String.eqb_eq in E. contradiction.
Qed.

Lemma check_url_fallback (p : page) :
  nonempty (html p) = true ->
  fst (parse_jsonld_availability p) = None \/
  fst (parse_jsonld_availability p) = Some "Unknown" ->
  fst (check_url (Some p)) = keyword_status_fallback p.
Proof.
  intros Hh Hs. unfold check_url. rewrite Hh. simpl.
  destruct (parse_jsonld_availability p) as [st nm]. simpl in Hs.
  destruct Hs as [-> | ->]; reflexivity.
Qed.

(** C6, as amended.  In a page, let [sc] be the first structured-data block
    that yields anything ([pre] are the blocks before it, which yield
    nothing, [post] the ones after it), and [content] its text.  The token is
    normalised case-insensitively, [instock] first, then [outofstock], then
    [preorder] or [pre-order]:
    - a token found by the fast pattern match that carries one of the
      markers decides the status, with the name the name pattern captured,
      and the blocks after it are not consulted;
    - a token found by the fast pattern match that carries none of them
      decides nothing: the block is left to the JSON search, as it is when
      the pattern finds no token;
    - a token found by the JSON search decides the status, Unknown if it
      carries none of the markers, with the name found next to the offers,
      and the blocks after it are not consulted;
    - a block in which neither finds a status is skipped;
    - a status other than Unknown found this way is the status of the
      page, whatever keywords its visible text contains. *)
Theorem structured_data_normalisation
    (pre post : list script) (sc : script) (content : string) :
  Forall (fun b => parse_block b = None) pre ->
  script_content sc = Some content ->
  (forall tok, AVAIL_PATTERN content = Some tok ->
     normalized tok <> "Unknown" ->
     parse_scripts (pre ++ sc :: post)
       = (Some (normalized tok), NAME_PATTERN content)) /\
  ((forall tok, AVAIL_PATTERN content = Some tok -> normalized tok = "Unknown") ->
     parse_block sc = json_path sc /\
     (forall data tok nm,
        sc_json sc = Some data -> extract data = Some (tok, nm) ->
        parse_scripts (pre ++ sc :: post) = (Some (normalized tok), nm)) /\
     (json_path sc = None ->
        parse_scripts (pre ++ sc :: post) = parse_scripts post)) /\
  (forall p s nm,
     nonempty (html p) = true ->
     ld_scripts p = pre ++ sc :: post ->
     parse_block sc = Some (Some s, nm) -> s <> "Unknown" ->
     fst (check_url (Some p)) = s).
Proof.
  intros Hpre Hc. split; [|split].
  - intros tok Hm Hn. rewrite (parse_scripts_skip _ _ Hpre). simpl.
    unfold parse_block. rewrite Hc.
    rewrite (fast_path_recognised _ _ Hm Hn). reflexivity.
  - intros Hun.
    assert (Hb : parse_block sc = json_path sc).
    { unfold parse_block. rewrite Hc.
      rewrite (fast_path_unrecognised _ Hun). reflexivity. }
    split; [exact Hb|]. split.
    + intros data tok nm Hd He. rewrite (parse_scripts_skip _ _ Hpre). simpl.
      rewrite Hb, (json_path_found _ _ _ _ Hd He). reflexivity.
    + intros Hn. rewrite (parse_scripts_skip _ _ Hpre). simpl.
      rewrite Hb, Hn. reflexivity.
  - intros p s nm Hh Hl Hb Hu.
    assert (Hs : parse_jsonld_availability p = (Some s, nm)).
    { unfold parse_jsonld_availability. rewrite Hl.
      rewrite (parse_scripts_skip _ _ Hpre). simpl. rewrite Hb. reflexivity. }
    apply check_url_conclusive; [exact Hh|rewrite Hs; reflexivity| |exact Hu].
    unfold parse_block in Hb. rewrite Hc in Hb.
    assert (Hcase : s = "InStock" \/ s = "OutOfStock" \/ s = "PreOrder" \/ s = "Unknown").
    { destruct (fast_path content) as [r|] eqn:Hf.
      - unfold fast_path in Hf.
        destruct (AVAIL_PATTERN content) as [g|]; [|discriminate].
        destruct (contains "instock" (lower g)); [left; congruence|].
        destruct (contains "outofstock" (lower g)); [right; left; congruence|].
        destruct (contains "preorder" (lower g) || contains "pre-order" (lower g));
          [right; right; left; congruence|discriminate].
      - unfold json_path in Hb.
        destruct (sc_json sc) as [data|]; [|discriminate].
        destruct (extract data) as [[a n]|]; [|discriminate].
        destruct (contains "instock" (lower a)); [left; congruence|].
        destruct (contains "outofstock" (lower a)); [right; left; congruence|].
        destruct (contains "preorder" (lower a) || contains "pre-order" (lower a));
          [right; right; left; congruence|right; right; right; congruence]. }
    destruct Hcase as [-> | [-> | [-> | ->]]]; reflexivity.
Qed.

(** C6, as stated, fails.  The only structured-data block of [graph_page]
    carries the availability token [https://schema.org/Discontinued], which
    the pattern finds; it is not empty and has none of the markers.  The
    structured-data stage does not yield Unknown with a name for it: it
    yields nothing, and the page is reported in stock from its text. *)
Lemma unrecognised_token_is_not_unknown :
  script_content graph_script = Some graph_block /\
  AVAIL_PATTERN graph_block = Some "https://schema.org/Discontinued" /\
  normalized "https://schema.org/Discontinued" = "Unknown" /\
  parse_jsonld_availability graph_page = (None, None) /\
  check_url (Some graph_page) = ("InStock", Some "Booster Box | shop").
Proof. repeat split; vm_compute; reflexivity. Qed.

Lemma structured_data_normalisation_witness :
  parse_scripts ([blank_script] ++ instock_script :: [graph_script])
    = (Some "InStock", None).
Proof.
  apply (proj1 (structured_data_normalisation [blank_script] [graph_script]
                  instock_script instock_block
                  (List.Forall_cons _ blank_script [] eq_refl (List.Forall_nil _))
                  eq_refl)
           "http://schema.org/InStock").
  - vm_compute; reflexivity.
  - vm_compute; discriminate.
Defined.

(* ================================================================== *)
(** * The tracking store *)

Section DictFacts.
Context {V : Type}.
Implicit Types (d : list (string * V)) (k : string) (v : V).

Lemma keys_app d1 d2 : keys (d1 ++ d2) = keys d1 ++ keys d2.
Proof. unfold keys. apply map_app. Qed.

Lemma dict_get_fresh k d : k ∉ keys d -> dict_get k d = None.
Proof.
  induction d as [|[k' v'] d IH]; simpl; intros Hk; [reflexivity|].
  apply not_elem_of_cons in Hk as [Hne Hk].
  destruct (String.eqb_spec k k') as [->|_]; [contradiction|]. auto.
Qed.

Lemma dict_set_fresh k v d : k ∉ keys d -> dict_set k v d = d ++ [(k, v)].
Proof.
  induction d as [|[k' v'] d IH]; simpl; intros Hk; [reflexivity|].
  apply not_elem_of_cons in Hk as [Hne Hk].
  destruct (String.eqb_spec k k') as [->|_]; [contradiction|].
  rewrite IH by assumption. reflexivity.
Qed.

Lemma dict_get_set_eq k v d : dict_get k (dict_set k v d) = Some v.
Proof.
  induction d as [|[k' v'] d IH]; simpl.
  - rewrite String.eqb_refl. reflexivity.
  - destruct (String.eqb_spec k k') as [->|Hne]; simpl.
    + rewrite String.eqb_refl. reflexivity.
    + destruct (String.eqb_spec k k'); [contradiction|]. exact IH.
Qed.

Lemma dict_get_set_ne k k' v d :
  k <> k' -> dict_get k' (dict_set k v d) = dict_get k' d.
Proof.
  intros Hne. induction d as [|[k0 v0] d IH]; simpl.
  - destruct (String.eqb_spec k' k); [congruence|reflexivity].
  - destruct (String.eqb_spec k k0) as [->|Hk]; simpl.
    + destruct (String.eqb_spec k' k0); [congruence|reflexivity].
    + destruct (String.eqb_spec k' k0); [reflexivity|exact IH].
Qed.

Lemma keys_dict_set k v d :
  keys (dict_set k v d) = if dict_mem k d then keys d else keys d ++ [k].
Proof.
  unfold dict_mem. induction d as [|[k' v'] d IH]; simpl; [reflexivity|].
  destruct (String.eqb_spec k k') as [->|Hne]; simpl; [reflexivity|].
  rewrite IH. destruct (dict_get k d); reflexivity.
Qed.

Lemma dict_mem_keys k d : dict_mem k d = true <-> k ∈ keys d.
Proof.
  unfold dict_mem. induction d as [|[k' v'] d IH]; simpl.
  - split; [discriminate|]. intros H. inversion H.
  - rewrite elem_of_cons.
    destruct (String.eqb_spec k k') as [->|Hne]; [tauto|].
    rewrite IH. split; [tauto|]. intros [?|?]; [contradiction|assumption].
Qed.

Lemma keys_dict_pop_subseteq k d : keys (dict_pop k d) ⊆ keys d.
Proof.
  induction d as [|[k' v'] d IH]; simpl; [reflexivity|].
  destruct (String.eqb k k'); simpl.
  - intros x Hx. right. exact Hx.
  - intros x. rewrite !elem_of_cons. intros [?|?]; [tauto|]. right. auto.
Qed.

Lemma dict_pop_NoDup k d : NoDup (keys d) -> NoDup (keys (dict_pop k d)).
Proof.
  induction d as [|[k' v'] d IH]; simpl; intros Hd; [exact Hd|].
  apply NoDup_cons in Hd as [Hk Hd].
  destruct (String.eqb k k'); simpl; [exact Hd|].
  apply NoDup_cons. split; [|auto].
  intros Hin. apply Hk. eapply keys_dict_pop_subseteq; eauto.
Qed.

Lemma dict_pop_gone k d : NoDup (keys d) -> k ∉ keys (dict_pop k d).
Proof.
  induction d as [|[k' v'] d IH]; simpl; intros Hd.
  - intros H; inversion H.
  - apply NoDup_cons in Hd as [Hk Hd].
    destruct (String.eqb_spec k k') as [->|Hne]; simpl; [exact Hk|].
    apply not_elem_of_cons. split; [exact Hne|auto].
Qed.

Lemma dict_set_NoDup k v d : NoDup (keys d) -> NoDup (keys (dict_set k v d)).
Proof.
  intros Hd. rewrite keys_dict_set.
  destruct (dict_mem k d) eqn:Hm; [exact Hd|].
  apply NoDup_app. split; [exact Hd|]. split.
  - intros x Hx Hx'. apply list_elem_of_singleton in Hx'. subst x.
    apply dict_mem_keys in Hx. congruence.
  - apply NoDup_singleton.
Qed.

End DictFacts.

Lemma py_or_dict (kv : list (string * json)) : py_or (JDict kv) (JDict []) = JDict kv.
Proof. destruct kv; reflexivity. Qed.

Lemma TrackedItem_kwargs_asdict (it : TrackedItem) :
  TrackedItem_kwargs (asdict it) = Ok it.
Proof. destruct it. reflexivity. Qed.

Lemma items_from_dict_cons (u : string) (it : TrackedItem)
    (kvs : list (string * json)) (h : heap) (acc : list (string * loc)) :
  items_from_dict ((u, asdict it) :: kvs) h acc
  = items_from_dict kvs (h ++ [it]) (dict_set u (length h) acc).
Proof.
  change (items_from_dict ((u, asdict it) :: kvs) h acc)
    with (obj ← TrackedItem_kwargs (asdict it) ;
          let '(r, h') := alloc h obj in
          items_from_dict kvs h' (dict_set u r acc)).
  rewrite TrackedItem_kwargs_asdict. reflexivity.
Qed.


Lemma keys_dumped_items h d : keys (dumped_items h d) = keys d.
Proof. unfold keys, dumped_items. rewrite map_map. reflexivity. Qed.

Lemma items_to_dict_dumped (h : heap) (d : list (string * loc)) (acc : list (string * json)) :
  NoDup (keys acc ++ keys d) ->
  items_to_dict h d acc = acc ++ dumped_items h d.
Proof.
  revert acc. induction d as [|[u r] d IH]; simpl; intros acc Hnd.
  - rewrite app_nil_r. reflexivity.
  - assert (Hu : u ∉ keys acc).
    { apply NoDup_app in Hnd as (_ & Hdisj & _). intros Hin.
      apply (Hdisj u Hin). left. }
    rewrite (dict_set_fresh _ _ _ Hu). rewrite IH.
    + rewrite <- app_assoc. reflexivity.
    + rewrite keys_app, <- app_assoc. exact Hnd.
Qed.

Lemma items_from_dict_dumped (h : heap) (d : list (string * loc))
    (h0 : heap) (acc : list (string * loc)) :
  NoDup (keys acc ++ keys d) ->
  items_from_dict (dumped_items h d) h0 acc
  = Ok (h0 ++ map (fun e => deref h (snd e)) d,
        acc ++ zip (keys d) (seq (length h0) (length d))).
Proof.
  revert h0 acc. induction d as [|[u r] d IH]; intros h0 acc Hnd.
  - simpl. rewrite !app_nil_r. reflexivity.
  - change (dumped_items h ((u, r) :: d))
      with ((u, asdict (deref h r)) :: dumped_items h d).
    rewrite items_from_dict_cons. simpl in Hnd |- *.
    assert (Hu : u ∉ keys acc).
    { apply NoDup_app in Hnd as (_ & Hdisj & _). intros Hin.
      apply (Hdisj u Hin). left. }
    rewrite (dict_set_fresh _ _ _ Hu). rewrite IH.
    + rewrite length_app. simpl. rewrite Nat.add_1_r, <- !app_assoc. reflexivity.
    + rewrite keys_app, <- app_assoc. exact Hnd.
Qed.

Lemma deref_middle (pre post : heap) (x : TrackedItem) :
  deref (pre ++ x :: post) (length pre) = x.
Proof. unfold deref. rewrite list_lookup_middle by reflexivity. reflexivity. Qed.

Lemma zip_values (ks : list string) (objs pre : heap) :
  length ks = length objs ->
  map (fun e : string * loc => (fst e, deref (pre ++ objs) (snd e)))
      (zip ks (seq (length pre) (length objs)))
  = zip ks objs.
Proof.
  revert ks pre. induction objs as [|o objs IH]; intros [|k ks] pre Hl;
    try discriminate; simpl; [reflexivity|].
  rewrite deref_middle. f_equal.
  specialize (IH ks (pre ++ [o])). rewrite <- app_assoc in IH. simpl in IH.
  rewrite length_app in IH. simpl in IH. rewrite Nat.add_1_r in IH.
  apply IH. simpl in Hl. congruence.
Qed.

Lemma zip_keys_values {A B : Type} (g : string * A -> B) (d : list (string * A)) :
  zip (keys d) (map g d) = map (fun e => (fst e, g e)) d.
Proof. induction d as [|e d IH]; simpl; [reflexivity|]. rewrite IH. reflexivity. Qed.

Lemma save_state_complete (h : heap) (c : BotConfig) (f : file) :
  save_state h c f = Document (to_dict h c).
Proof. reflexivity. Qed.

Lemma from_dict_to_dict (h : heap) (c : BotConfig) (d : list (string * loc)) :
  items c = Some d -> NoDup (keys d) ->
  from_dict (to_dict h c)
  = Ok (map (fun e => deref h (snd e)) d,
        mkConfig (interval_sec c) (alert_channel_id c)
          (Some (zip (keys d) (seq 0 (length d))))).
Proof.
  intros Hd Hnd. unfold to_dict, from_dict. rewrite Hd. simpl.
  rewrite (items_to_dict_dumped h d []) by exact Hnd. simpl.
  rewrite py_or_dict. simpl.
  rewrite (items_from_dict_dumped h d [] []) by exact Hnd. reflexivity.
Qed.

(** Loading the document of a configuration gives its values back. *)
Lemma load_document_values (h : heap) (c : BotConfig) (d : list (string * loc)) :
  items c = Some d -> NoDup (keys d) ->
  exists h' c',
    load_state (Document (to_dict h c)) = Ok (h', c') /\
    config_values h' c' = config_values h c.
Proof.
  intros Hd Hnd. unfold load_state. cbn [path_exists negb json_load mbind res_bind].
  rewrite (from_dict_to_dict h c d Hd Hnd). cbn [try_except].
  eexists _, _. split; [reflexivity|].
  unfold config_values. cbn [interval_sec alert_channel_id items]. rewrite Hd.
  cbn [option_map]. do 2 f_equal.
  pose proof (zip_values (keys d) (map (fun e => deref h (snd e)) d) []) as Hz.
  cbn [app length] in Hz. rewrite length_map in Hz. rewrite Hz.
  - apply (zip_keys_values (fun e => deref h (snd e))).
  - unfold keys. rewrite !length_map. reflexivity.
Qed.

(** A save that meets a value it cannot write raises, and leaves a file
    from which [load_state] reads the default empty configuration, whatever
    the file held before. *)
Lemma unwritable_value_loses_state (h : heap) (c : BotConfig) (f : file) (e : exn) :
  dump_error (to_dict h c) = Some e ->
  save_state_run true h c f = (Raise e, Malformed) /\
  load_state (snd (save_state_run true h c f)) = Ok empty_config.
Proof.
  intros He. unfold save_state_run. cbv zeta. cbn [negb]. rewrite He.
  split; reflexivity.
Qed.

(** A file that cannot be opened for writing is left as it was. *)
Lemma unwritable_file_is_kept (h : heap) (c : BotConfig) (f : file) :
  save_state_run false h c f = (Raise OSError, f).
Proof. reflexivity. Qed.

(** The step [save] of the running bot is the save of a writable file and
    a document that can be written: the run of [save_state] that
    completes. *)
Lemma save_is_the_completing_run (st : state) :
  dump_error (to_dict (objects st) (cfg st)) = None ->
  save_state_run true (objects st) (cfg st) (disk st)
  = (fst (save st), disk (snd (save st))) /\
  objects (snd (save st)) = objects st /\
  cfg (snd (save st)) = cfg st /\
  sent (snd (save st)) = sent st.
Proof.
  intros Hw. unfold save_state_run. cbv zeta. cbn [negb]. rewrite Hw.
  repeat split.
Qed.

(** C8, as stated, fails.  A configuration with one item whose title on
    record holds a lone surrogate has a dictionary of items without a
    repeated url, yet saving it raises, and what is loaded after that is the
    default empty configuration: no item, and not the channel that was
    set. *)
Lemma lone_surrogate_is_not_saved :
  items surrogate_config = Some [(url_etb, 0)] /\
  flat surrogate_heap surrogate_config = true /\
  fst (save_state_run true surrogate_heap surrogate_config Missing)
  = Raise UnicodeEncodeError /\
  load_state (snd (save_state_run true surrogate_heap surrogate_config Missing))
  = Ok empty_config /\
  config_values (fst empty_config) (snd empty_config)
  <> config_values surrogate_heap surrogate_config.
Proof.
  split; [reflexivity|]. split; [vm_compute; reflexivity|].
  split; [vm_compute; reflexivity|].
  split; [vm_compute; reflexivity|]. vm_compute. discriminate.
Qed.

(** C8, as amended.  For every configuration whose items form a dictionary
    (a tracked url occurs once), whose channel and item fields hold [None],
    booleans, numbers or strings, and whose document [json.dump] can write
    (no string with a lone surrogate, no integer over the digit limit),
    whatever the interval is and whichever fields are absent or present, and
    whatever the state file held before: when the file can be opened for
    writing the save completes, and loading after it succeeds and gives a
    configuration with the same interval, the same alert channel and, in the
    same order, the same urls with items whose five fields have the same
    values.  The text of the file is not modelled: what a completed
    [json.dump] has written, [json.load] reads as the same document. *)
Theorem save_load_roundtrip (h : heap) (c : BotConfig)
    (d : list (string * loc)) (f : file) :
  items c = Some d ->
  NoDup (keys d) ->
  flat h c = true ->
  dump_error (to_dict h c) = None ->
  fst (save_state_run true h c f) = Ok tt /\
  exists h' c',
    load_state (snd (save_state_run true h c f)) = Ok (h', c') /\
    config_values h' c' = config_values h c.
Proof.
  intros Hd Hnd _ Hw. unfold save_state_run. cbv zeta. cbn [negb]. rewrite Hw.
  cbn [fst snd]. split; [reflexivity|].
  rewrite save_state_complete. apply (load_document_values h c d Hd Hnd).
Qed.

(** The default of the [items] attribute, [None], is outside the theorem:
    [to_dict] writes it as the empty dictionary, which is what comes back.
    [load_state] never builds such a configuration. *)
Lemma no_items_reload_as_empty (n : Z) (ch : json) (h : heap) (f : file) :
  load_state (save_state h (mkConfig n ch None) f) = Ok ([], mkConfig n ch (Some [])).
Proof. reflexivity. Qed.

Lemma save_load_roundtrip_witness :
  fst (save_state_run true two_items_heap two_items_config Malformed) = Ok tt /\
  exists h' c',
    load_state (snd (save_state_run true two_items_heap two_items_config Malformed))
    = Ok (h', c') /\
    config_values h' c' = config_values two_items_heap two_items_config.
Proof.
  apply (save_load_roundtrip two_items_heap two_items_config _ Malformed eq_refl).
  - simpl. apply NoDup_cons. split.
    + intros H. apply list_elem_of_singleton in H. discriminate.
    + apply NoDup_singleton.
  - vm_compute. reflexivity.
  - vm_compute. reflexivity.
Defined.

(** C9.  [load_state] returns the default empty configuration when the
    state file is missing, when it cannot be read and when its content is
    malformed; it returns it as well when the document in the file is one
    [from_dict] raises on, so that [load_state] returns a configuration for
    every state of the file and never raises. *)
Theorem load_state_never_fails :
  load_state Missing = Ok empty_config /\
  load_state Unreadable = Ok empty_config /\
  load_state Malformed = Ok empty_config /\
  (forall j : json,
     load_state (Document j)
     = match from_dict j with
       | Ok hc => Ok hc
       | Raise _ => Ok empty_config
       end) /\
  (forall f : file, exists hc, load_state f = Ok hc) /\
  (forall (f : file) (env : option string), exists st, startup f env = Ok st).
Proof.
  assert (Hdoc : forall j, load_state (Document j)
                 = match from_dict j with
                   | Ok hc => Ok hc
                   | Raise _ => Ok empty_config
                   end).
  { intros j. unfold load_state. simpl. destruct (from_dict j); reflexivity. }
  assert (Hall : forall f, exists hc, load_state f = Ok hc).
  { intros [| | |j]; try (eexists; reflexivity).
    rewrite Hdoc. destruct (from_dict j); eexists; reflexivity. }
  repeat split; try reflexivity; try assumption.
  intros f env. destruct (Hall f) as [[h c] Hl]. unfold startup. rewrite Hl.
  simpl. eexists; reflexivity.
Qed.

(** C3, as stated, fails.  With a good configuration in the state file, a
    crash one step into a save of it (the file opened for writing, nothing
    flushed yet) leaves a file that is not the one that was there and from
    which [load_state] no longer gets the configuration. *)
Lemma crash_during_save_loses_state :
  let f := disk two_items_state in
  let steps := save_state_steps two_items_heap two_items_config in
  exists k, k < length steps /\
    file_after k steps f <> f /\
    load_state (file_after k steps f) = Ok empty_config /\
    load_state f <> Ok empty_config.
Proof.
  exists 1. split; [simpl; lia|]. split; [|split].
  - discriminate.
  - reflexivity.
  - vm_compute. discriminate.
Qed.

(** C3, as amended.  [save_state] serialises the whole configuration and
    writes it over the state file in place.  Before the file is opened it is
    untouched; from the moment it is opened for writing until the dump is
    flushed, it holds no JSON document, whatever it held before, and
    [load_state] gets the default empty configuration from it; a save that
    completes leaves exactly the document of the configuration. *)
Theorem save_state_in_place (h : heap) (c : BotConfig) (f : file) :
  let steps := save_state_steps h c in
  length steps = 3 /\
  file_after 0 steps f = f /\
  file_after 1 steps f = Malformed /\
  file_after 2 steps f = Malformed /\
  file_after 3 steps f = Document (to_dict h c) /\
  save_state h c f = Document (to_dict h c) /\
  load_state Malformed = Ok empty_config.
Proof. repeat split. Qed.

(* ================================================================== *)
(** * The sweep loop *)

Lemma deref_insert_lt (h : heap) (r : nat) (x : TrackedItem) :
  r < length h -> deref (<[r := x]> h) r = x.
Proof. intros Hr. unfold deref. rewrite list_lookup_insert_eq by exact Hr. reflexivity. Qed.

Lemma deref_insert_ne (h : heap) (r r' : nat) (x : TrackedItem) :
  r <> r' -> deref (<[r := x]> h) r' = deref h r'.
Proof. intros Hr. unfold deref. rewrite list_lookup_insert_ne by exact Hr. reflexivity. Qed.

Lemma deref_dangling (h : heap) (r : nat) : length h <= r -> deref h r = null_item.
Proof. intros Hr. unfold deref. rewrite lookup_ge_None_2 by exact Hr. reflexivity. Qed.

Lemma deref_app (h l : heap) (r : nat) : r < length h -> deref (h ++ l) r = deref h r.
Proof. intros Hr. unfold deref. rewrite lookup_app_l by exact Hr. reflexivity. Qed.

(** The three assignments of the body, one after the other, amount to one
    update of the object. *)
Lemma three_assignments (h : heap) (item : nat) (status : string)
    (title : option string) (now : spec_float) :
  let h1 := <[item := set_last_status (JStr status) (deref h item)]> h in
  let h2 := <[item := set_last_title
                        (py_or (of_opt title) (last_title (deref h1 item)))
                        (deref h1 item)]> h1 in
  <[item := set_last_checked (JFloat now) (deref h2 item)]> h2
  = <[item := checked_item (deref h item) status title now]> h.
Proof.
  intros h1 h2. destruct (decide (item < length h)) as [Hlt|Hge].
  - assert (H1 : deref h1 item = set_last_status (JStr status) (deref h item))
      by (apply deref_insert_lt; exact Hlt).
    assert (H2 : deref h2 item
                 = set_last_title (py_or (of_opt title) (last_title (deref h item)))
                     (set_last_status (JStr status) (deref h item))).
    { unfold h2. rewrite deref_insert_lt
        by (unfold h1; rewrite length_insert; exact Hlt).
      rewrite H1. reflexivity. }
    rewrite H2. unfold h2, h1. rewrite !list_insert_insert_eq. reflexivity.
  - assert (Hge' : length h <= item) by lia.
    assert (E1 : h1 = h) by (apply list_insert_ge; exact Hge').
    assert (E2 : h2 = h) by (unfold h2; rewrite E1; apply list_insert_ge; exact Hge').
    rewrite E2. rewrite !(list_insert_ge h item) by exact Hge'. reflexivity.
Qed.

(** The body of the loop in one piece: the object is updated, the entry is
    written back, the configuration is saved, and then, if the detector
    says so, the alert is sent. *)
Lemma sweep_item_run (st : state) (u : string) (item : nat) (t : turn) :
  sweep_item u item t st
  = let status := fst (check_url (fetched t)) in
    let title := snd (check_url (fetched t)) in
    let it := deref (objects st) item in
    let h' := <[item := checked_item it status title (clock t)]> (objects st) in
    match items (cfg st) with
    | None => (Raise TypeError, mkState h' (cfg st) (disk st) (sent st))
    | Some d =>
        let c' := mkConfig (interval_sec (cfg st)) (alert_channel_id (cfg st))
                    (Some (dict_set u item d)) in
        let st1 := mkState h' c' (Document (to_dict h' c')) (sent st) in
        if fst (detect (last_status it) status) then
          send_alert (chat t) u (last_title (deref h' item))
            (if negb (snd (detect (last_status it) status))
             then last_status (deref h' item) else JNull)
            status st1
        else (Ok tt, st1)
    end.
Proof.
  destruct st as [h c f s]. unfold sweep_item.
  destruct (check_url (fetched t)) as [status title].
  pose proof (three_assignments h item status title (clock t)) as E.
  cbv zeta in E.
  cbv [mbind M_bind getattr setattr the_items get_cfg set_items set_cfg save
       mret M_ret raise detect fst snd objects cfg disk sent].
  rewrite E.
  destruct (items c) as [d|]; [|reflexivity].
  cbv [interval_sec alert_channel_id].
  rewrite save_state_complete.
  destruct (is_none (last_status (deref h item))); simpl;
    destruct c as [n ch its]; simpl;
    match goal with
    | |- (if ?b then _ else _) _ = _ => destruct b; reflexivity
    end.
Qed.

(** What [send_alert] does, case by case. *)
Lemma send_alert_run (env : discord) (u : string) (title old : json)
    (new : string) (st : state) :
  send_alert env u title old new st
  = if negb (truthy (alert_channel_id (cfg st))) then (Ok tt, st)
    else if negb (channel_found env) then (Ok tt, st)
    else match send_failure env with
         | Some e => (Raise e, st)
         | None =>
             (Ok tt,
              mkState (objects st) (cfg st) (disk st)
                (sent st ++ [mkAlert (py_or title (JStr u))
                               (py_or old (JStr "Unknown")) new u (strftime env)]))
         end.
Proof.
  unfold send_alert. cbv [mbind M_bind get_cfg mret M_ret raise].
  destruct (negb (truthy _)); [reflexivity|].
  destruct (negb (channel_found env)); [reflexivity|].
  destruct (send_failure env); reflexivity.
Qed.

Lemma send_alert_objects env u title old new st :
  objects (snd (send_alert env u title old new st)) = objects st.
Proof.
  rewrite send_alert_run.
  destruct (negb (truthy _)); [reflexivity|].
  destruct (negb (channel_found env)); [reflexivity|].
  destruct (send_failure env); reflexivity.
Qed.

Lemma sweep_item_objects (st : state) (u : string) (item : nat) (t : turn) :
  objects (snd (sweep_item u item t st))
  = <[item := checked_item (deref (objects st) item)
                (fst (check_url (fetched t))) (snd (check_url (fetched t)))
                (clock t)]> (objects st).
Proof.
  rewrite sweep_item_run. cbv zeta.
  destruct (items (cfg st)) as [d|]; [|reflexivity].
  destruct (fst (detect _ _)); [|reflexivity].
  apply send_alert_objects.
Qed.

(** The docstring of [check_url]: the status is one of the four. *)
Lemma check_url_status (fetched : option page) :
  In (fst (check_url fetched)) ["InStock"; "OutOfStock"; "PreOrder"; "Unknown"].
Proof.
  assert (Hk : forall p, In (keyword_status_fallback p)
                           ["InStock"; "OutOfStock"; "PreOrder"; "Unknown"]).
  { intros p. unfold keyword_status_fallback.
    destruct (any_kw _ IN_STOCK_KEYWORDS); [simpl; tauto|].
    destruct (any_kw _ OUT_STOCK_KEYWORDS); [simpl; tauto|].
    destruct (any_kw _ PREORDER_KEYWORDS); simpl; tauto. }
  unfold check_url. destruct fetched as [p|]; [|simpl; tauto].
  destruct (negb (nonempty (html p))); [simpl; tauto|].
  destruct (parse_jsonld_availability p) as [[s|] nm] eqn:Hp; simpl; [|apply Hk].
  destruct (negb (nonempty s) || String.eqb s "Unknown") eqn:Hs; [apply Hk|].
  apply orb_false_elim in Hs as [_ Hs].
  unfold parse_jsonld_availability in Hp.
  revert Hp. generalize (ld_scripts p). intros l.
  induction l as [|sc l IH]; simpl; [discriminate|].
  unfold parse_block.
  destruct (script_content sc) as [content|]; [|exact IH].
  unfold fast_path.
  destruct (AVAIL_PATTERN content) as [g|].
  - destruct (contains "instock" (lower g));
      [intros [= <- _]; simpl; tauto|].
    destruct (contains "outofstock" (lower g));
      [intros [= <- _]; simpl; tauto|].
    destruct (contains "preorder" (lower g) || contains "pre-order" (lower g));
      [intros [= <- _]; simpl; tauto|].
    unfold json_path. destruct (sc_json sc) as [data|]; [|exact IH].
    destruct (extract data) as [[a n]|]; [|exact IH].
    destruct (contains "instock" (lower a));
      [intros [= <- _]; simpl; tauto|].
    destruct (contains "outofstock" (lower a));
      [intros [= <- _]; simpl; tauto|].
    destruct (contains "preorder" (lower a) || contains "pre-order" (lower a));
      intros [= <- _]; simpl; tauto.
  - unfold json_path. destruct (sc_json sc) as [data|]; [|exact IH].
    destruct (extract data) as [[a n]|]; [|exact IH].
    destruct (contains "instock" (lower a));
      [intros [= <- _]; simpl; tauto|].
    destruct (contains "outofstock" (lower a));
      [intros [= <- _]; simpl; tauto|].
    destruct (contains "preorder" (lower a) || contains "pre-order" (lower a));
      intros [= <- _]; simpl; tauto.
Qed.

Lemma check_url_status_nonempty (fetched : option page) :
  nonempty (fst (check_url fetched)) = true.
Proof.
  pose proof (check_url_status fetched) as H. simpl in H.
  destruct H as [<- | [<- | [<- | [<- | []]]]]; reflexivity.
Qed.


Lemma detect_first_time (prev : json) (new : string) :
  snd (detect prev new) = true <-> prev = JNull.
Proof. unfold detect. simpl. destruct prev; simpl; split; congruence. Qed.

(** ** Keeping a property along a computation *)

Lemma preserved_bind (P : state -> Prop) {A B : Type} (m : M A) (k : A -> M B) :
  preserved P m -> (forall a, preserved P (k a)) -> preserved P (m ≫= k).
Proof.
  intros Hm Hk st HP. specialize (Hm st HP).
  unfold mbind, M_bind. destruct (m st) as [[a|e] st']; simpl in *.
  - apply Hk. exact Hm.
  - exact Hm.
Qed.

Lemma preserved_ret (P : state -> Prop) {A : Type} (a : A) : preserved P (mret a).
Proof. intros st HP. exact HP. Qed.

(** A command only ever adds objects to the heap. *)
Lemma run_command_objects (c : command) (st : state) :
  exists l, objects (snd (run_command c st)) = objects st ++ l.
Proof.
  destruct st as [h [n ch its] f s].
  destruct c as [id | minutes | u nick | identifier];
    cbv [run_command set_channel set_interval track_add track_remove
         mbind M_bind get_cfg set_cfg set_items the_items save new_item alloc
         mret M_ret raise objects cfg items interval_sec alert_channel_id disk sent snd fst].
  - exists []. rewrite app_nil_r. reflexivity.
  - exists []. rewrite app_nil_r. reflexivity.
  - destruct (negb _); [exists []; rewrite app_nil_r; reflexivity|].
    destruct its as [d|].
    + destruct (dict_mem u d); [exists []; rewrite app_nil_r; reflexivity|].
      eexists. reflexivity.
    + simpl. eexists. reflexivity.
  - destruct its as [d|]; [|exists []; rewrite app_nil_r; reflexivity].
    destruct (dict_mem identifier d); [exists []; rewrite app_nil_r; reflexivity|].
    destruct (find_nickname h identifier d) as [to_del|e];
      [|exists []; rewrite app_nil_r; reflexivity].
    destruct (opt_nonempty to_del); exists []; rewrite app_nil_r; reflexivity.
Qed.

(** ** The change detector and the alert *)



(** X23.  When a status is on record, the previous status an alert shows is
    not the one that was on record: the body has overwritten it before it
    reads it, and the alert shows the new status twice. *)
Lemma alert_previous_is_new (st : state) (u : string) (item : nat) (t : turn)
    (a : alert) :
  last_status (deref (objects st) item) <> JNull ->
  sent (snd (sweep_item u item t st)) = sent st ++ [a] ->
  a_old a = JStr (a_new a).
Proof.
  intros Hprev. rewrite sweep_item_run. cbv zeta.
  assert (Hlt : item < length (objects st)).
  { destruct (decide (item < length (objects st))) as [H|H]; [exact H|].
    rewrite deref_dangling in Hprev by lia. contradiction Hprev. reflexivity. }
  assert (Hfirst : snd (detect (last_status (deref (objects st) item))
                          (fst (check_url (fetched t)))) = false).
  { destruct (snd (detect _ _)) eqn:E; [|reflexivity].
    apply detect_first_time in E. contradiction. }
  rewrite Hfirst. cbn [negb]. rewrite deref_insert_lt by exact Hlt.
  cbn [checked_item last_status last_title].
  assert (Hnil : forall l : list alert, l = l ++ [a] -> False).
  { intros l H. apply (f_equal length) in H. rewrite length_app in H.
    simpl in H. lia. }
  destruct (items (cfg st)) as [d|]; [|intros H; destruct (Hnil _ H)].
  destruct (fst (detect _ _)); [|intros H; destruct (Hnil _ H)].
  rewrite send_alert_run. cbn [cfg alert_channel_id sent objects disk].
  destruct (negb (truthy _)); [intros H; destruct (Hnil _ H)|].
  destruct (negb (channel_found _)); [intros H; destruct (Hnil _ H)|].
  destruct (send_failure _); [intros H; destruct (Hnil _ H)|].
  cbn [snd sent]. intros H. apply app_inv_head in H. injection H as <-.
  cbn [a_old a_new]. unfold py_or. cbn [truthy].
  rewrite check_url_status_nonempty. reflexivity.
Qed.

(** C1 fails on the code.  The first item of [two_items_state] has the
    status OutOfStock on record; its page now shows InStock.  The alert the
    body of the loop delivers shows InStock as the previous status, not the
    status that was on record, and the two statuses of the alert do not
    differ. *)
Theorem alert_shows_new_status_as_previous :
  last_status (deref (objects two_items_state) 0) = JStr "OutOfStock" /\
  fst (check_url (fetched (instock_turn delivering))) = "InStock" /\
  sent (snd (sweep_item url_etb 0 (instock_turn delivering) two_items_state))
  = [mkAlert (JStr "Elite Trainer Box") (JStr "InStock") "InStock" url_etb
       "2026-11-03 12:05:00"].
Proof. repeat split; vm_compute; reflexivity. Qed.

(** ** Items removed during a sweep *)

(** C4 fails on the code.  In [plan_with_removal] the second item is removed
    by a command after the snapshot is taken and before its turn.  The
    removal succeeds and the url is gone from the dictionary; but at its
    turn the body checks the item all the same and stores the snapshot's
    reference under its url again: after the sweep the item is tracked and
    saved in the state file as before, with the result of the check. *)
Theorem removed_item_is_written_back :
  let st1 := snd (sweep_item url_etb 0 (instock_turn delivering) two_items_state) in
  let removal := run_command (TrackRemove url_booster) st1 in
  let st' := snd (one_sweep plan_with_removal two_items_state) in
  items (cfg two_items_state) = Some [(url_etb, 0); (url_booster, 1)] /\
  fst removal = Ok Removed /\
  items (cfg (snd removal)) = Some [(url_etb, 0)] /\
  fst (one_sweep plan_with_removal two_items_state) = Ok tt /\
  items (cfg st') = Some [(url_etb, 0); (url_booster, 1)] /\
  last_status (deref (objects st') 1) = JStr "InStock" /\
  last_checked (deref (objects st') 1) = JFloat (clock (instock_turn delivering)) /\
  disk st' = Document (to_dict (objects st') (cfg st')) /\
  length (sent st') = 2.
Proof. repeat split; vm_compute; reflexivity. Qed.

(** ** Alerts that cannot be delivered *)

Lemma sweep_cons (u : string) (item : nat) (snapshot : list (string * loc))
    (r : round) (rs : list round) (st : state) :
  sweep ((u, item) :: snapshot) (r :: rs) st
  = match handle_all (meanwhile r) st with
    | (Ok _, st1) =>
        match sweep_item u item (supplies r) st1 with
        | (Ok _, st2) => sweep snapshot rs st2
        | (Raise e, st2) => (Raise e, st2)
        end
    | (Raise e, st1) => (Raise e, st1)
    end.
Proof.
  cbn [sweep]. unfold mbind, M_bind.
  destruct (handle_all (meanwhile r) st) as [[[]|e] st1]; [|reflexivity].
  destruct (sweep_item u item (supplies r) st1) as [[[]|e] st2]; reflexivity.
Qed.




(** ** Titles on record *)

Lemma titled_valid (r : nat) (st : state) : titled r st -> r < length (objects st).
Proof.
  unfold titled. intros H.
  destruct (decide (r < length (objects st))) as [Hlt|Hge]; [exact Hlt|].
  rewrite deref_dangling in H by lia. contradiction H. reflexivity.
Qed.

Lemma py_or_not_null (title : option string) (old : json) :
  old <> JNull -> py_or (of_opt title) old <> JNull.
Proof.
  intros Hold. unfold py_or. destruct title as [s|]; simpl; [|exact Hold].
  destruct (nonempty s); [discriminate|exact Hold].
Qed.

Lemma sweep_item_titled (r : nat) (u : string) (item : nat) (t : turn) :
  preserved (titled r) (sweep_item u item t).
Proof.
  intros st Hr. pose proof (titled_valid _ _ Hr) as Hlt.
  unfold titled in *. rewrite sweep_item_objects.
  destruct (decide (item = r)) as [->|Hne].
  - rewrite deref_insert_lt by exact Hlt. cbn [checked_item last_title].
    apply py_or_not_null. exact Hr.
  - rewrite deref_insert_ne by exact Hne. exact Hr.
Qed.

Lemma handle_titled (r : nat) (c : command) : preserved (titled r) (handle c).
Proof.
  intros st Hr. pose proof (titled_valid _ _ Hr) as Hlt.
  unfold handle, titled in *. cbn [snd].
  destruct (run_command_objects c st) as [l ->].
  rewrite deref_app by exact Hlt. exact Hr.
Qed.

Lemma handle_all_preserved (P : state -> Prop) (cs : list command) :
  (forall c, preserved P (handle c)) -> preserved P (handle_all cs).
Proof.
  intros Hc. induction cs as [|c cs IH]; cbn [handle_all].
  - apply preserved_ret.
  - apply preserved_bind; [apply Hc|intros _; exact IH].
Qed.

Lemma the_items_preserved (P : state -> Prop) (e : exn) : preserved P (the_items e).
Proof.
  intros st HP. unfold the_items. cbv [mbind M_bind get_cfg mret M_ret raise].
  destruct (items (cfg st)); exact HP.
Qed.

Lemma monitor_loop_titled (r : nat) (plans : list sweep_plan) :
  preserved (titled r) (monitor_loop plans).
Proof.
  assert (Hsweep : forall snapshot rs, preserved (titled r) (sweep snapshot rs)).
  { induction snapshot as [|[u item] snapshot IH]; intros rs; cbn [sweep].
    - apply preserved_ret.
    - destruct rs as [|rd rs]; [apply preserved_ret|].
      apply preserved_bind;
        [apply handle_all_preserved; intros c; apply handle_titled|intros _].
      apply preserved_bind; [apply sweep_item_titled|intros _; apply IH]. }
  induction plans as [|p plans IH]; cbn [monitor_loop].
  - apply preserved_ret.
  - apply preserved_bind; [|intros _; exact IH].
    unfold one_sweep.
    apply preserved_bind;
      [apply handle_all_preserved; intros c; apply handle_titled|intros _].
    apply preserved_bind; [apply the_items_preserved|intros snapshot].
    apply Hsweep.
Qed.

(** C10.  A failed fetch makes [check_url] return Unknown and no title, as
    an empty body does.  When the check of an item yields no title, the body
    of the loop leaves the title on record as it is.  And whatever the check
    yields, an object that has a title on record has one after the body of
    the loop, and after any number of sweeps with any commands handled in
    between. *)
Theorem last_title_is_kept :
  check_url None = ("Unknown", None) /\
  (forall p, nonempty (html p) = false -> check_url (Some p) = ("Unknown", None)) /\
  (forall st u item t,
     snd (check_url (fetched t)) = None ->
     last_title (deref (objects (snd (sweep_item u item t st))) item)
     = last_title (deref (objects st) item)) /\
  (forall r st u item t,
     last_title (deref (objects st) r) <> JNull ->
     last_title (deref (objects (snd (sweep_item u item t st))) r) <> JNull) /\
  (forall r plans st,
     last_title (deref (objects st) r) <> JNull ->
     last_title (deref (objects (snd (monitor_loop plans st))) r) <> JNull).
Proof.
  split; [reflexivity|]. split.
  { intros p Hp. unfold check_url. rewrite Hp. reflexivity. }
  split.
  { intros st u item t Ht. rewrite sweep_item_objects, Ht.
    destruct (decide (item < length (objects st))) as [Hlt|Hge].
    - rewrite deref_insert_lt by exact Hlt. reflexivity.
    - rewrite list_insert_ge by lia. reflexivity. }
  split.
  - intros r st u item t. apply (sweep_item_titled r u item t st).
  - intros r plans st. apply (monitor_loop_titled r plans st).
Qed.

Lemma last_title_is_kept_witness :
  last_title (deref (objects (snd (sweep_item url_etb 0 failed_turn two_items_state))) 0)
  = JStr "Elite Trainer Box".
Proof.
  exact (proj1 (proj2 (proj2 last_title_is_kept))
           two_items_state url_etb 0 failed_turn eq_refl).
Defined.

(** ** References stay valid *)

Section ForallDict.
Context {V : Type} (P : string * V -> Prop).

Lemma Forall_dict_set (k : string) (v : V) (d : list (string * V)) :
  Forall P d -> P (k, v) -> Forall P (dict_set k v d).
Proof.
  intros Hd Hkv. induction Hd as [|[k' v'] d Hx Hd IH]; simpl.
  - repeat constructor. exact Hkv.
  - destruct (String.eqb k k'); constructor; auto.
Qed.

Lemma Forall_dict_pop (k : string) (d : list (string * V)) :
  Forall P d -> Forall P (dict_pop k d).
Proof.
  intros Hd. induction Hd as [|[k' v'] d Hx Hd IH]; simpl.
  - constructor.
  - destruct (String.eqb k k'); [exact Hd|constructor; auto].
Qed.

End ForallDict.

Lemma valid_weaken (n m : nat) (d : list (string * nat)) :
  n <= m ->
  Forall (fun e : string * nat => snd e < n) d ->
  Forall (fun e : string * nat => snd e < m) d.
Proof.
  intros Hnm Hd. eapply Forall_impl; [exact Hd|]. intros e He. simpl in *. lia.
Qed.

Lemma run_command_wf (c : command) : preserved wf_refs (run_command c).
Proof.
  intros [h [n ch its] f s] Hwf. unfold wf_refs in *. cbn [objects cfg items] in Hwf.
  destruct c as [id | minutes | u nick | identifier];
    cbv [run_command set_channel set_interval track_add track_remove
         mbind M_bind get_cfg set_cfg set_items the_items save new_item alloc
         mret M_ret raise objects cfg items interval_sec alert_channel_id
         disk sent snd fst].
  - exact Hwf.
  - exact Hwf.
  - destruct (negb _); [exact Hwf|].
    destruct its as [d|].
    + destruct (Hwf d eq_refl) as [Hnd Hv].
      destruct (dict_mem u d); [exact Hwf|].
      cbn [objects cfg items]. intros d' [= <-]. split.
      * apply dict_set_NoDup. exact Hnd.
      * rewrite length_app. cbn [length]. apply Forall_dict_set.
        -- eapply valid_weaken; [|exact Hv]. lia.
        -- cbn [snd]. lia.
    + cbn [dict_mem dict_get objects cfg items dict_set].
      intros d' [= <-]. split.
      * apply NoDup_singleton.
      * repeat constructor. rewrite length_app. cbn [snd length]. lia.
  - destruct its as [d|]; [|exact Hwf].
    destruct (Hwf d eq_refl) as [Hnd Hv].
    assert (Hpop : forall k d', Some (dict_pop k d) = Some d' ->
                     NoDup (keys d') /\
                     Forall (fun e : string * nat => snd e < length h) d').
    { intros k d' [= <-]. split;
        [apply dict_pop_NoDup; exact Hnd|apply Forall_dict_pop; exact Hv]. }
    destruct (dict_mem identifier d); [apply Hpop|].
    destruct (find_nickname h identifier d) as [to_del|e]; [|exact Hwf].
    destruct (opt_nonempty to_del); [apply Hpop|exact Hwf].
Qed.

Lemma run_command_length (c : command) (st : state) :
  length (objects st) <= length (objects (snd (run_command c st))).
Proof.
  destruct (run_command_objects c st) as [l ->]. rewrite length_app. lia.
Qed.

Lemma sweep_item_length (u : string) (item : nat) (t : turn) (st : state) :
  length (objects (snd (sweep_item u item t st))) = length (objects st).
Proof. rewrite sweep_item_objects. apply length_insert. Qed.

Lemma sweep_item_wf (u : string) (item : nat) (t : turn) (st : state) :
  wf_refs st -> item < length (objects st) ->
  wf_refs (snd (sweep_item u item t st)).
Proof.
  intros Hwf Hlt. unfold wf_refs. rewrite sweep_item_length.
  rewrite sweep_item_run. cbv zeta. destruct (items (cfg st)) as [d|] eqn:Hd.
  - destruct (Hwf d Hd) as [Hnd Hv].
    assert (Hgoal : forall d', Some (dict_set u item d) = Some d' ->
              NoDup (keys d') /\
              Forall (fun e : string * nat => snd e < length (objects st)) d').
    { intros d' [= <-]. split;
        [apply dict_set_NoDup; exact Hnd|apply Forall_dict_set; assumption]. }
    destruct (fst (detect _ _)); [|exact Hgoal].
    rewrite send_alert_run. cbn [cfg alert_channel_id].
    destruct (negb (truthy _)); [exact Hgoal|].
    destruct (negb (channel_found _)); [exact Hgoal|].
    destruct (send_failure _); exact Hgoal.
  - cbn [snd cfg]. rewrite Hd. discriminate.
Qed.

Lemma handle_wf_snapshot (snapshot : list (string * nat)) (c : command) :
  preserved (wf_snapshot snapshot) (handle c).
Proof.
  intros st [Hwf Hs]. unfold handle. cbn [snd]. split.
  - apply run_command_wf. exact Hwf.
  - eapply valid_weaken; [apply run_command_length|exact Hs].
Qed.

Lemma sweep_wf (snapshot : list (string * nat)) (rs : list round) (st : state) :
  wf_snapshot snapshot st -> wf_refs (snd (sweep snapshot rs st)).
Proof.
  revert rs st. induction snapshot as [|[u item] snapshot IH]; intros rs st Hst.
  - exact (proj1 Hst).
  - destruct rs as [|r rs]; [exact (proj1 Hst)|]. rewrite sweep_cons.
    pose proof (handle_all_preserved _ (meanwhile r)
                  (handle_wf_snapshot ((u, item) :: snapshot)) st Hst) as H1.
    destruct (handle_all (meanwhile r) st) as [[[]|e] st1]; cbn [snd] in H1;
      [|exact (proj1 H1)].
    destruct H1 as [Hwf1 Hs1]. apply Forall_cons in Hs1 as [Hitem Hs1].
    cbn [snd] in Hitem.
    pose proof (sweep_item_wf u item (supplies r) st1 Hwf1 Hitem) as H2.
    pose proof (sweep_item_length u item (supplies r) st1) as Hlen.
    destruct (sweep_item u item (supplies r) st1) as [[[]|e] st2];
      cbn [snd] in *; [|exact H2].
    apply IH. split; [exact H2|]. rewrite Hlen. exact Hs1.
Qed.

(** Every reference the dictionary holds points to an object, and no url
    occurs twice in it, at any point of any run of the loop. *)
Lemma monitor_loop_wf (plans : list sweep_plan) : preserved wf_refs (monitor_loop plans).
Proof.
  induction plans as [|p plans IH]; cbn [monitor_loop].
  - apply preserved_ret.
  - apply preserved_bind; [|intros _; exact IH].
    intros st Hwf. unfold one_sweep.
    assert (Hh : preserved wf_refs (handle_all (before p))).
    { apply handle_all_preserved. intros c st0 H0. unfold handle. cbn [snd].
      apply run_command_wf. exact H0. }
    specialize (Hh st Hwf). unfold mbind at 1, M_bind at 1.
    destruct (handle_all (before p) st) as [[[]|e] st1]; cbn [snd] in *;
      [|exact Hh].
    cbv [mbind M_bind the_items get_cfg mret M_ret raise].
    destruct (items (cfg st1)) as [d|] eqn:Hd; [|exact Hh].
    apply sweep_wf. split; [exact Hh|]. apply (Hh d Hd).
Qed.

Lemma items_from_dict_wf (kvs : list (string * json)) (h : heap)
    (acc : list (string * loc)) (h' : heap) (d : list (string * loc)) :
  NoDup (keys acc) ->
  Forall (fun e : string * nat => snd e < length h) acc ->
  items_from_dict kvs h acc = Ok (h', d) ->
  NoDup (keys d) /\ Forall (fun e : string * nat => snd e < length h') d.
Proof.
  revert h acc. induction kvs as [|[u it] kvs IH]; intros h acc Hnd Hv; cbn [items_from_dict].
  - intros [= <- <-]. split; assumption.
  - destruct (TrackedItem_kwargs it) as [obj|e]; [|discriminate].
    cbn [mbind res_bind alloc]. apply IH.
    + apply dict_set_NoDup. exact Hnd.
    + rewrite length_app. cbn [length]. apply Forall_dict_set.
      * eapply valid_weaken; [|exact Hv]. lia.
      * cbn [snd]. lia.
Qed.

Lemma load_state_wf (f : file) (h : heap) (c : BotConfig) :
  load_state f = Ok (h, c) ->
  forall d, items c = Some d ->
  NoDup (keys d) /\ Forall (fun e : string * nat => snd e < length h) d.
Proof.
  assert (Hempty : forall d, items (snd empty_config) = Some d ->
            NoDup (keys d) /\
            Forall (fun e : string * nat => snd e < length (fst empty_config)) d).
  { intros d [= <-]. split; constructor. }
  unfold load_state. destruct (negb (path_exists f)).
  { intros [= <- <-]. exact Hempty. }
  destruct (json_load f) as [j|e]; cbn [mbind res_bind try_except];
    [|intros [= <- <-]; exact Hempty].
  destruct (from_dict j) as [[h0 c0]|e] eqn:Hj; cbn [try_except];
    [|intros [= <- <-]; exact Hempty].
  intros [= <- <-]. revert Hj. unfold from_dict.
  destruct (py_get j "items" JNull) as [its|e]; [|discriminate].
  cbn [mbind res_bind].
  destruct (py_items (py_or its (JDict []))) as [kvs|e]; [|discriminate].
  cbn [mbind res_bind].
  destruct (items_from_dict kvs [] []) as [[h1 d1]|e] eqn:Hi; [|discriminate].
  cbn [mbind res_bind].
  destruct (py_get j "interval_sec" _) as [n|e]; [|discriminate].
  cbn [mbind res_bind].
  destruct (py_int n) as [n'|e]; [|discriminate].
  cbn [mbind res_bind].
  destruct (py_get j "alert_channel_id" JNull) as [ch|e]; [|discriminate].
  cbn [mbind res_bind]. intros [= <- <-] d [= <-].
  eapply items_from_dict_wf; [| |exact Hi]; constructor.
Qed.

(** The state the module starts in has valid references. *)
Lemma startup_wf (f : file) (env : option string) (st : state) :
  startup f env = Ok st -> wf_refs st.
Proof.
  unfold startup. destruct (load_state f) as [[h c]|e] eqn:Hl; [|discriminate].
  cbn [mbind res_bind]. intros [= <-]. unfold wf_refs. cbn [objects cfg].
  pose proof (load_state_wf f h c Hl) as Hwf.
  destruct (opt_nonempty env && negb (truthy (alert_channel_id c))); [|exact Hwf].
  destruct (int_of_string _); exact Hwf.
Qed.

(** ** The commands and the dictionary *)

(** X24.  Whatever the dictionary holds when the turn of a snapshot entry
    comes, the body of the loop leaves the url of the entry in it, bound to
    the object of the entry. *)
Lemma sweep_item_tracks (st : state) (u : string) (item : nat) (t : turn)
    (d : list (string * loc)) :
  items (cfg st) = Some d ->
  items (cfg (snd (sweep_item u item t st))) = Some (dict_set u item d) /\
  dict_get u (dict_set u item d) = Some item.
Proof.
  intros Hd. split; [|apply dict_get_set_eq].
  rewrite sweep_item_run. cbv zeta. rewrite Hd.
  destruct (fst (detect _ _)); [|reflexivity].
  rewrite send_alert_run. cbn [cfg alert_channel_id].
  destruct (negb (truthy _)); [reflexivity|].
  destruct (negb (channel_found _)); [reflexivity|].
  destruct (send_failure _); reflexivity.
Qed.

(** The interval is clamped to one minute at least. *)
Lemma set_interval_clamps (minutes : Z) (st : state) :
  interval_sec (cfg (snd (set_interval minutes st))) = (Z.max 1 minutes * 60)%Z /\
  (MIN_INTERVAL_SEC <= interval_sec (cfg (snd (set_interval minutes st))))%Z.
Proof.
  assert (H : interval_sec (cfg (snd (set_interval minutes st)))
              = (Z.max 1 minutes * 60)%Z) by reflexivity.
  split; [exact H|]. rewrite H. unfold MIN_INTERVAL_SEC. lia.
Qed.

(** Adding a url that is tracked already changes nothing. *)
Lemma track_add_duplicate (u : string) (nick : option string) (st : state)
    (d : list (string * loc)) :
  items (cfg st) = Some d -> dict_mem u d = true ->
  snd (track_add u nick st) = st.
Proof.
  intros Hd Hm. unfold track_add.
  destruct (negb _); [reflexivity|].
  cbv [mbind M_bind get_cfg the_items mret M_ret]. rewrite Hd.
  cbv [mbind M_bind get_cfg the_items mret M_ret]. rewrite Hd, Hm. reflexivity.
Qed.

(** Removing a tracked url takes it out of the dictionary in memory. *)
Lemma track_remove_by_url (u : string) (st : state) (d : list (string * loc)) :
  items (cfg st) = Some d -> NoDup (keys d) -> dict_mem u d = true ->
  items (cfg (snd (track_remove u st))) = Some (dict_pop u d) /\
  (u ∉ keys (dict_pop u d)) /\
  objects (snd (track_remove u st)) = objects st.
Proof.
  intros Hd Hnd Hm. unfold track_remove.
  cbv [mbind M_bind get_cfg the_items set_items set_cfg save mret M_ret].
  rewrite Hd, Hm. cbn [fst snd cfg items disk objects].
  repeat split. apply dict_pop_gone. exact Hnd.
Qed.

(** Removing what matches neither a url nor a nickname changes nothing. *)
Lemma track_remove_unmatched (identifier : string) (st : state)
    (d : list (string * loc)) :
  items (cfg st) = Some d -> dict_mem identifier d = false ->
  find_nickname (objects st) identifier d = Ok None ->
  track_remove identifier st = (Ok NoMatch, st).
Proof.
  intros Hd Hm Hf. unfold track_remove.
  cbv [mbind M_bind get_cfg the_items set_items set_cfg save mret M_ret].
  rewrite Hd, Hm, Hf. reflexivity.
Qed.

(* ================================================================== *)
(** * Further properties: texts and patterns *)

Lemma append_nil_r (s : string) : (s ++ EmptyString)%string = s.
Proof. induction s as [|c s IH]; simpl; [reflexivity|]. rewrite IH. reflexivity. Qed.

Lemma append_assoc (a b c : string) :
  ((a ++ b) ++ c)%string = (a ++ (b ++ c))%string.
Proof. induction a as [|x a IH]; simpl; [reflexivity|]. rewrite IH. reflexivity. Qed.

Lemma prefix_spec (w s : string) :
  String.prefix w s = true <-> exists post, s = (w ++ post)%string.
Proof.
  revert s. induction w as [|a w IH]; intros [|b s]; simpl.
  - split; [intros _; exists EmptyString; reflexivity|reflexivity].
  - split; [intros _; exists (String b s); reflexivity|reflexivity].
  - split; [discriminate|intros [post H]; discriminate].
  - destruct (Ascii.ascii_dec a b) as [->|Hne].
    + rewrite IH. split; intros [post H]; exists post; congruence.
    + split; [discriminate|]. intros [post H]. congruence.
Qed.

(** The model of the operator [in] on strings is the substring relation. *)
Lemma contains_spec (w s : string) :
  contains w s = true <-> exists pre post, s = (pre ++ w ++ post)%string.
Proof.
  induction s as [|c s IH].
  - cbn [contains]. rewrite orb_false_r, prefix_spec. split.
    + intros [post H]. exists EmptyString, post. exact H.
    + intros [[|a pre] [post H]]; [exists post; exact H|discriminate].
  - cbn [contains]. rewrite orb_true_iff, prefix_spec, IH. split.
    + intros [[post H] | [pre [post H]]].
      * exists EmptyString, post. exact H.
      * exists (String c pre), post. simpl. rewrite H. reflexivity.
    + intros [[|a pre] [post H]].
      * left. exists post. exact H.
      * right. exists pre, post. simpl in H. congruence.
Qed.

Lemma contains_trans (a b c : string) :
  contains a b = true -> contains b c = true -> contains a c = true.
Proof.
  rewrite !contains_spec. intros [p1 [q1 ->]] [p2 [q2 ->]].
  exists (p2 ++ p1)%string, (q1 ++ q2)%string.
  rewrite !append_assoc. reflexivity.
Qed.

Lemma any_kw_of (body w : string) (words : list string) :
  In w words -> contains w body = true -> any_kw body words = true.
Proof. intros Hin Hc. apply any_kw_mentions. exists w. split; assumption. Qed.

(** X1.  Two of the out-of-stock phrases contain an in-stock phrase, and
    the in-stock phrases are tested first: a page whose text says that the
    article is [niet op voorraad] or [currently unavailable], in any case of
    the letters the lowering folds, is reported in stock by the keyword
    stage, whatever else it says. *)
Theorem shadowed_out_of_stock_phrases (p : page) :
  contains "niet op voorraad" (lower (visible_text p)) = true \/
  contains "currently unavailable" (lower (visible_text p)) = true ->
  keyword_status_fallback p = "InStock".
Proof.
  intros H. unfold keyword_status_fallback.
  assert (Hin : any_kw (lower (visible_text p)) IN_STOCK_KEYWORDS = true).
  { destruct H as [H|H].
    - apply (any_kw_of _ "op voorraad"); [simpl; tauto|].
      eapply contains_trans; [|exact H]. reflexivity.
    - apply (any_kw_of _ "available"); [simpl; tauto|].
      eapply contains_trans; [|exact H]. reflexivity. }
  rewrite Hin. reflexivity.
Qed.

Lemma shadowed_out_of_stock_phrases_witness :
  keyword_status_fallback
    (mkPage "<html><body><p>Helaas: NIET OP VOORRAAD</p></body></html>" []
       "Helaas: NIET OP VOORRAAD" None)
  = "InStock".
Proof.
  apply shadowed_out_of_stock_phrases. left. vm_compute. reflexivity.
Defined.

(** ** What the patterns need and what they capture *)

Lemma eat_exact (p s r : string) : eat false p s = Some r -> s = (p ++ r)%string.
Proof.
  revert s. induction p as [|a p IH]; intros s; simpl.
  - intros [= ->]. reflexivity.
  - destruct s as [|b s]; [discriminate|].
    destruct (Ascii.eqb_spec b a) as [->|_]; [|discriminate].
    intros H. rewrite (IH _ H). reflexivity.
Qed.

Lemma name_at_needs_word (prev : option ascii) (s g : string) :
  name_at prev s = Some g ->
  is_word_opt prev = true /\ exists rest, s = (quoted_name ++ rest)%string.
Proof.
  unfold name_at.
  destruct (word_boundary prev (first_char s)) eqn:Hb; [|discriminate].
  destruct (eat false (String quote "name") s) as [r|] eqn:He; [|discriminate].
  destruct r as [|c r']; [discriminate|].
  destruct (Ascii.eqb_spec c quote) as [->|_]; [|discriminate].
  intros _. apply eat_exact in He. subst s. split.
  - simpl in Hb. unfold word_boundary in Hb. simpl in Hb.
    destruct (is_word_opt prev); [reflexivity|discriminate].
  - exists r'. reflexivity.
Qed.

Lemma search_name_needs_word (prev : option ascii) (s g : string) :
  search_from name_at prev s = Some g ->
  (is_word_opt prev = true /\ exists rest, s = (quoted_name ++ rest)%string) \/
  exists pre c rest,
    s = (pre ++ String c (quoted_name ++ rest))%string /\ is_word c = true.
Proof.
  revert prev. induction s as [|a s IH]; intros prev; cbn [search_from].
  - destruct (name_at prev EmptyString) eqn:Hn; [|discriminate].
    intros _. left. eapply name_at_needs_word. exact Hn.
  - destruct (name_at prev (String a s)) eqn:Hn.
    + intros _. left. eapply name_at_needs_word. exact Hn.
    + intros H. right. destruct (IH _ H) as [[Hw [rest ->]] | [pre [c [rest [-> Hc]]]]].
      * exists EmptyString, a, rest. split; [reflexivity|exact Hw].
      * exists (String a pre), c, rest. split; [reflexivity|exact Hc].
Qed.

(** X2.  The name pattern asks for a word boundary right before the opening
    quote of its key.  So it only finds a name where the quoted key directly
    follows a letter, a digit or an underscore: never at the start of the
    text, and never after a brace, a comma, a colon or white space, which is
    where a JSON document has it. *)
Theorem name_pattern_needs_word_before (content g : string) :
  NAME_PATTERN content = Some g ->
  exists pre c rest,
    content = (pre ++ String c (quoted_name ++ rest))%string /\ is_word c = true.
Proof.
  unfold NAME_PATTERN. intros H.
  destruct (search_name_needs_word _ _ _ H) as [[Hw _] | Hex];
    [discriminate|exact Hex].
Qed.

Lemma name_pattern_needs_word_before_witness :
  exists pre c rest,
    dq "{'sku': 1,x'name': 'Booster'}"
    = (pre ++ String c (quoted_name ++ rest))%string /\ is_word c = true.
Proof.
  apply (name_pattern_needs_word_before _ "Booster"). vm_compute. reflexivity.
Defined.

(** A string without double quote and without newline. *)
Lemma lazy_until_quote_clean (s g : string) :
  lazy_until_quote s = Some g ->
  contains (char_string quote) g = false /\ contains (char_string newline) g = false.
Proof.
  revert g. induction s as [|c s IH]; intros g; simpl; [discriminate|].
  destruct (Ascii.eqb_spec c quote) as [->|Hq].
  - intros [= <-]. split; reflexivity.
  - destruct (Ascii.eqb_spec c newline) as [->|Hn]; [discriminate|].
    destruct (lazy_until_quote s) as [g'|]; [|discriminate].
    intros [= <-]. destruct (IH g' eq_refl) as [H1 H2].
    cbn [contains char_string String.prefix]. rewrite H1, H2.
    destruct (Ascii.ascii_dec quote c) as [E|_]; [congruence|].
    destruct (Ascii.ascii_dec newline c) as [E|_]; [congruence|].
    split; reflexivity.
Qed.

Lemma colon_value_clean (s g : string) :
  colon_value s = Some g ->
  contains (char_string quote) g = false /\ contains (char_string newline) g = false.
Proof.
  unfold colon_value. destruct (skip_spaces s) as [|c s1]; [discriminate|].
  destruct (Ascii.eqb c ":"); [|discriminate].
  destruct (skip_spaces s1) as [|q s2]; [discriminate|].
  destruct (Ascii.eqb q quote); [|discriminate].
  apply lazy_until_quote_clean.
Qed.

Lemma search_clean (at_pos : option ascii -> string -> option string) :
  (forall prev s g, at_pos prev s = Some g ->
     contains (char_string quote) g = false /\
     contains (char_string newline) g = false) ->
  forall s prev g, search_from at_pos prev s = Some g ->
    contains (char_string quote) g = false /\
    contains (char_string newline) g = false.
Proof.
  intros Hat. induction s as [|a s IH]; intros prev g; cbn [search_from].
  - destruct (at_pos prev EmptyString) eqn:E; [|discriminate].
    intros [= <-]. eapply Hat. exact E.
  - destruct (at_pos prev (String a s)) eqn:E.
    + intros [= <-]. eapply Hat. exact E.
    + apply IH.
Qed.

(** X3.  What either pattern captures is the text up to the next double
    quote on the same line: the token and the name the fast path works with
    contain no double quote and no newline (so a value with an escaped quote
    is cut at the escape). *)
Theorem captured_groups_are_clean (content g : string) :
  AVAIL_PATTERN content = Some g \/ NAME_PATTERN content = Some g ->
  contains (char_string quote) g = false /\
  contains (char_string newline) g = false.
Proof.
  intros [H|H]; revert H; apply search_clean; intros prev s g'.
  - unfold avail_at. destruct (word_boundary _ _); [|discriminate].
    destruct (eat true "availability" s) as [r|]; [|discriminate].
    destruct (word_boundary _ _); [|discriminate].
    apply colon_value_clean.
  - unfold name_at. destruct (word_boundary _ _); [|discriminate].
    destruct (eat false _ s) as [r|]; [|discriminate].
    destruct r as [|c r']; [discriminate|].
    destruct (Ascii.eqb c quote); [|discriminate].
    apply colon_value_clean.
Qed.

Lemma captured_groups_are_clean_witness :
  contains (char_string quote) "http://schema.org/InStock" = false /\
  contains (char_string newline) "http://schema.org/InStock" = false.
Proof.
  apply (captured_groups_are_clean instock_block). left. vm_compute. reflexivity.
Defined.

(* ================================================================== *)
(** * Further properties: loading and saving *)

Lemma kwargs_ok_document (it : json) (x : TrackedItem) :
  TrackedItem_kwargs it = Ok x -> item_document it.
Proof.
  unfold TrackedItem_kwargs, item_document.
  destruct it as [| | | | | |kw]; try discriminate.
  destruct (forallb _ (keys kw)) eqn:Hf; [|discriminate].
  destruct (dict_get "url" kw) as [v|] eqn:Hu; [|discriminate].
  intros _. exists kw. split; [reflexivity|]. split.
  - apply List.Forall_forall. intros k Hk.
    rewrite forallb_forall in Hf. specialize (Hf k Hk).
    apply existsb_exists in Hf as [k' [Hin Heq]].
    apply String.eqb_eq in Heq. subst k'. exact Hin.
  - unfold dict_mem. rewrite Hu. reflexivity.
Qed.

Lemma kwargs_rejects (it : json) :
  ~ item_document it -> exists e, TrackedItem_kwargs it = Raise e.
Proof.
  intros Hn. destruct (TrackedItem_kwargs it) as [x|e] eqn:E.
  - contradiction Hn. eapply kwargs_ok_document. exact E.
  - exists e. reflexivity.
Qed.

Lemma items_from_dict_raises (kvs : list (string * json)) (u : string) (it : json)
    (h : heap) (acc : list (string * loc)) :
  In (u, it) kvs -> ~ item_document it ->
  exists e, items_from_dict kvs h acc = Raise e.
Proof.
  intros Hin Hbad. revert h acc.
  induction kvs as [|[u' it'] kvs IH]; intros h acc; [destruct Hin|].
  cbn [items_from_dict].
  destruct (TrackedItem_kwargs it') as [obj|e] eqn:E; [|exists e; reflexivity].
  cbn [mbind res_bind alloc]. destruct Hin as [[= -> ->]|Hin].
  - contradiction Hbad. eapply kwargs_ok_document. exact E.
  - apply IH. exact Hin.
Qed.

(** X4.  One entry of the items of the state file that the constructor of
    [TrackedItem] does not accept (it is no object, it lacks the url, or it
    has a key that is no field) makes [load_state] drop the whole file: the
    other items, the interval and the alert channel are not loaded either,
    and the bot starts from the empty default. *)
Theorem bad_item_discards_all (kv kvs : list (string * json)) (u : string) (it : json) :
  dict_get "items" kv = Some (JDict kvs) ->
  In (u, it) kvs ->
  ~ item_document it ->
  load_state (Document (JDict kv)) = Ok empty_config.
Proof.
  intros Hk Hin Hbad. unfold load_state. cbn [path_exists negb json_load mbind res_bind].
  unfold from_dict. cbn [py_get mbind res_bind]. rewrite Hk. cbn [default from_option id].
  rewrite py_or_dict. cbn [py_items mbind res_bind].
  destruct (items_from_dict_raises kvs u it [] [] Hin Hbad) as [e ->].
  reflexivity.
Qed.

Lemma bad_item_discards_all_witness :
  load_state
    (Document
       (JDict [("interval_sec", JInt 900); ("alert_channel_id", JInt 42);
               ("items",
                JDict [(url_etb, asdict (mkItem (JStr url_etb) JNull JNull JNull JNull));
                       (url_booster,
                        JDict [("url", JStr url_booster); ("price", JInt 5)])])]))
  = Ok empty_config.
Proof.
  eapply (bad_item_discards_all _ _ url_booster
            (JDict [("url", JStr url_booster); ("price", JInt 5)])).
  - reflexivity.
  - simpl. right. left. reflexivity.
  - intros [kw [[= <-] [Hf _]]].
    apply List.Forall_forall with (x := "price") in Hf; [|simpl; tauto].
    simpl in Hf. repeat (destruct Hf as [Hf|Hf]; [discriminate|]). exact Hf.
Defined.

(** X5.  A state file whose document is not an object, or whose items entry
    is a true value that is not an object (a list of items, say), loads as
    the empty default. *)
Theorem misshapen_document_loads_empty (j : json) :
  (forall kv, j <> JDict kv) \/
  (exists kv v, j = JDict kv /\ dict_get "items" kv = Some v /\
                truthy v = true /\ forall kvs, v <> JDict kvs) ->
  load_state (Document j) = Ok empty_config.
Proof.
  intros [Hn | [kv [v [-> [Hv [Ht Hnd]]]]]]; unfold load_state;
    cbn [path_exists negb json_load mbind res_bind].
  - unfold from_dict. destruct j; try reflexivity. contradiction (Hn d). reflexivity.
  - unfold from_dict. cbn [py_get mbind res_bind]. rewrite Hv.
    cbn [default from_option id]. unfold py_or. rewrite Ht.
    destruct v; try reflexivity. contradiction (Hnd d). reflexivity.
Qed.

Lemma misshapen_document_loads_empty_witness :
  load_state
    (Document (JDict [("interval_sec", JInt 900);
                      ("items", JList [JStr url_etb; JStr url_booster])]))
  = Ok empty_config.
Proof.
  apply misshapen_document_loads_empty. right.
  eexists _, _. split; [reflexivity|]. split; [reflexivity|].
  split; [reflexivity|]. discriminate.
Defined.

(** ** The dictionary stays a dictionary *)



(** ** Settings *)

(** X9.  The alert channel of the environment is a default only: it is
    taken when the loaded configuration has no channel (none, or zero) and
    [int] accepts the variable, and it is not written to the state file; a
    channel on file wins, and a variable that is no integer is ignored. *)
Theorem environment_channel_is_a_default (f : file) (h : heap) (c : BotConfig) :
  load_state f = Ok (h, c) ->
  (forall env, truthy (alert_channel_id c) = true ->
     startup f env = Ok (mkState h c f [])) /\
  startup f None = Ok (mkState h c f []) /\
  (forall s e, int_of_string s = Raise e ->
     startup f (Some s) = Ok (mkState h c f [])) /\
  (forall s chan, truthy (alert_channel_id c) = false -> nonempty s = true ->
     int_of_string s = Ok chan ->
     startup f (Some s)
     = Ok (mkState h (mkConfig (interval_sec c) (JInt chan) (items c)) f [])).
Proof.
  intros Hl. unfold startup. rewrite Hl. cbn [mbind res_bind].
  repeat split.
  - intros env Ht. rewrite Ht. rewrite andb_false_r. reflexivity.
  - intros s e He. cbn [default from_option id]. rewrite He.
    destruct (opt_nonempty (Some s) && negb (truthy (alert_channel_id c)));
      reflexivity.
  - intros s chan Ht Hs Hid. cbn [opt_nonempty default from_option id].
    rewrite Hs, Ht, Hid. reflexivity.
Qed.

Lemma environment_channel_is_a_default_witness :
  startup Missing (Some " 123456789012345678 ")
  = Ok (mkState [] (mkConfig DEFAULT_INTERVAL_SEC (JInt 123456789012345678) (Some []))
          Missing []).
Proof.
  refine (proj2 (proj2 (proj2
            (environment_channel_is_a_default Missing [] _ eq_refl)))
            " 123456789012345678 " 123456789012345678%Z eq_refl eq_refl _).
  vm_compute. reflexivity.
Defined.

(* ================================================================== *)
(** * Further properties: extraction *)

(** X10.  The docstring of [check_url]: whatever the fetch returns and
    whatever the page holds, the status is one of InStock, OutOfStock,
    PreOrder and Unknown. *)
Theorem status_is_one_of_four (fetched : option page) :
  In (fst (check_url fetched)) ["InStock"; "OutOfStock"; "PreOrder"; "Unknown"].
Proof. exact (check_url_status fetched). Qed.

(** X11.  A block whose JSON search finds a token without any marker ends
    the structured-data stage with Unknown: the blocks after it are not
    looked at, even if one of them offers the product in stock, and the
    status of the page is the one the keyword stage reads from its text. *)
Theorem unknown_block_ends_structured_stage
    (p : page) (pre post : list script) (sc : script) (nm : option string) :
  nonempty (html p) = true ->
  ld_scripts p = pre ++ sc :: post ->
  Forall (fun b => parse_block b = None) pre ->
  parse_block sc = Some (Some "Unknown", nm) ->
  parse_jsonld_availability p = (Some "Unknown", nm) /\
  fst (check_url (Some p)) = keyword_status_fallback p.
Proof.
  intros Hh Hl Hpre Hb.
  assert (Hp : parse_jsonld_availability p = (Some "Unknown", nm)).
  { unfold parse_jsonld_availability. rewrite Hl, (parse_scripts_skip _ _ Hpre).
    cbn [parse_scripts]. rewrite Hb. reflexivity. }
  split; [exact Hp|]. apply check_url_fallback; [exact Hh|].
  right. rewrite Hp. reflexivity.
Qed.

Lemma unknown_block_ends_structured_stage_witness :
  parse_jsonld_availability two_block_page = (Some "Unknown", None) /\
  fst (check_url (Some two_block_page)) = keyword_status_fallback two_block_page.
Proof.
  apply (unknown_block_ends_structured_stage two_block_page []
           [instock_script] soldout_script None).
  - reflexivity.
  - reflexivity.
  - constructor.
  - vm_compute. reflexivity.
Defined.

Lemma extract_list_cons (x : json) (l : list json) :
  extract (JList (x :: l))
  = match extract x with
    | Some res => Some res
    | None => extract (JList l)
    end.
Proof. reflexivity. Qed.

(** X12.  The search of the parsed document goes into lists and nowhere
    else: in a list it returns what the first element that yields anything
    yields, and an object without an offers entry yields nothing, whatever
    its other entries hold (a product under a graph key is not found). *)
Theorem extract_searches_lists_only :
  (forall (pre post : list json) (x : json) (res : string * option string),
     Forall (fun y => extract y = None) pre ->
     extract x = Some res ->
     extract (JList (pre ++ x :: post)) = Some res) /\
  (forall kv : list (string * json),
     dict_get "offers" kv = None -> extract (JDict kv) = None).
Proof.
  split.
  - intros pre post x res Hpre Hx.
    induction Hpre as [|y pre Hy _ IH]; cbn [app]; rewrite extract_list_cons.
    + rewrite Hx. reflexivity.
    + rewrite Hy. exact IH.
  - intros kv Hk. cbn [extract]. rewrite Hk. reflexivity.
Qed.

Lemma extract_searches_lists_only_witness :
  extract (JList [JStr "x"; graph_json; instock_json; graph_json])
  = Some ("http://schema.org/InStock", Some "Elite Trainer Box").
Proof.
  apply (proj1 extract_searches_lists_only [JStr "x"; graph_json] [graph_json]).
  - repeat constructor.
  - reflexivity.
Defined.

(* ================================================================== *)
(** * Further properties: the turn of an item *)

Lemma run_command_sent (c : command) (st : state) :
  sent (snd (run_command c st)) = sent st.
Proof.
  destruct st as [h [n ch its] f s].
  destruct c as [id | minutes | u nick | identifier];
    cbv [run_command set_channel set_interval track_add track_remove
         mbind M_bind get_cfg set_cfg set_items the_items save new_item alloc
         mret M_ret raise objects cfg items interval_sec alert_channel_id
         disk sent snd fst].
  - reflexivity.
  - reflexivity.
  - destruct (negb _); [reflexivity|].
    destruct its as [d|]; [destruct (dict_mem u d); reflexivity|reflexivity].
  - destruct its as [d|]; [|reflexivity].
    destruct (dict_mem identifier d); [reflexivity|].
    destruct (find_nickname h identifier d) as [to_del|e]; [|reflexivity].
    destruct (opt_nonempty to_del); reflexivity.
Qed.

Lemma sweep_item_sent (u : string) (item : nat) (t : turn) (st : state) :
  exists l, sent (snd (sweep_item u item t st)) = sent st ++ l /\ length l <= 1.
Proof.
  rewrite sweep_item_run. cbv zeta.
  assert (Hnil : exists l : list alert, sent st = sent st ++ l /\ length l <= 1).
  { exists []. rewrite app_nil_r. split; [reflexivity|simpl; lia]. }
  destruct (items (cfg st)) as [d|]; [|exact Hnil].
  destruct (fst (detect _ _)); [|exact Hnil].
  rewrite send_alert_run. cbn [cfg alert_channel_id sent].
  destruct (negb (truthy _)); [exact Hnil|].
  destruct (negb (channel_found _)); [exact Hnil|].
  destruct (send_failure _); [exact Hnil|].
  eexists. split; [reflexivity|simpl; lia].
Qed.

Lemma handle_all_sent (cs : list command) (st : state) :
  fst (handle_all cs st) = Ok tt /\ sent (snd (handle_all cs st)) = sent st.
Proof.
  revert st. induction cs as [|c cs IH]; intros st; cbn [handle_all].
  - split; reflexivity.
  - unfold mbind, M_bind, handle. specialize (IH (snd (run_command c st))).
    destruct IH as [H1 H2]. split; [exact H1|].
    rewrite H2. apply run_command_sent.
Qed.

(** X13.  Alerts are only ever added, one at most for the turn of an item:
    a sweep delivers no more alerts than its snapshot has entries, and the
    commands deliver none. *)
Theorem at_most_one_alert_per_item (snapshot : list (string * loc))
    (rs : list round) (st : state) :
  exists l,
    sent (snd (sweep snapshot rs st)) = sent st ++ l /\
    length l <= length snapshot.
Proof.
  revert rs st. induction snapshot as [|[u item] snapshot IH]; intros rs st.
  - exists []. rewrite app_nil_r. split; reflexivity.
  - destruct rs as [|r rs].
    { exists []. rewrite app_nil_r. split; [reflexivity|simpl; lia]. }
    rewrite sweep_cons.
    destruct (handle_all_sent (meanwhile r) st) as [Hok Hs].
    destruct (handle_all (meanwhile r) st) as [[[]|e] st1]; [|discriminate].
    cbn [snd] in Hs.
    destruct (sweep_item_sent u item (supplies r) st1) as [l1 [H1 Hl1]].
    destruct (sweep_item u item (supplies r) st1) as [[[]|e] st2]; cbn [snd] in *.
    + destruct (IH rs st2) as [l2 [H2 Hl2]]. exists (l1 ++ l2).
      rewrite H2, H1, Hs, <- app_assoc. split; [reflexivity|].
      rewrite length_app. simpl. lia.
    + exists l1. rewrite H1, Hs. split; [reflexivity|simpl; lia].
Qed.





(* ================================================================== *)
(** * Further properties: commands and sweeps *)

Lemma unobserved_new (u : json) (nick : json) : unobserved (mkItem u nick JNull JNull JNull).
Proof. repeat split. Qed.

(** What a command does to the heap: it adds objects, never observed, and
    changes none. *)
Lemma run_command_new_objects (c : command) (st : state) :
  exists l, objects (snd (run_command c st)) = objects st ++ l /\ Forall unobserved l.
Proof.
  destruct st as [h [n ch its] f s].
  assert (Hnil : exists l : list TrackedItem, h = h ++ l /\ Forall unobserved l).
  { exists []. rewrite app_nil_r. split; [reflexivity|constructor]. }
  destruct c as [id | minutes | u nick | identifier];
    cbv [run_command set_channel set_interval track_add track_remove
         mbind M_bind get_cfg set_cfg set_items the_items save new_item alloc
         mret M_ret raise objects cfg items interval_sec alert_channel_id
         disk sent snd fst].
  - exact Hnil.
  - exact Hnil.
  - destruct (negb _); [exact Hnil|].
    destruct its as [d|].
    + destruct (dict_mem u d); [exact Hnil|].
      eexists. split; [reflexivity|]. repeat constructor.
    + cbn [dict_mem dict_get]. eexists. split; [reflexivity|]. repeat constructor.
  - destruct its as [d|]; [|exact Hnil].
    destruct (dict_mem identifier d); [exact Hnil|].
    destruct (find_nickname h identifier d) as [to_del|e]; [|exact Hnil].
    destruct (opt_nonempty to_del); exact Hnil.
Qed.

Lemma deref_app_new (h l : heap) (r : nat) (P : TrackedItem -> Prop) :
  Forall P l -> length h <= r -> r < length (h ++ l) -> P (deref (h ++ l) r).
Proof.
  intros Hl Hge Hlt. unfold deref. rewrite lookup_app_r by exact Hge.
  rewrite length_app in Hlt.
  destruct (l !! (r - length h)) as [x|] eqn:E.
  - cbn [default from_option id]. eapply Forall_lookup_1; eauto.
  - apply lookup_ge_None_1 in E. lia.
Qed.

(** X16.  No command touches what is on record for an item: every object
    there is keeps all its fields through every command, the alerts sent
    stay as they are, and an object a command creates has no status, no
    title and no time of check. *)
Theorem commands_keep_the_records (c : command) (st : state) :
  let st' := snd (run_command c st) in
  (forall r, r < length (objects st) ->
     deref (objects st') r = deref (objects st) r) /\
  (forall r, length (objects st) <= r -> r < length (objects st') ->
     unobserved (deref (objects st') r)) /\
  sent st' = sent st.
Proof.
  intros st'. unfold st'.
  destruct (run_command_new_objects c st) as [l [Hl Hnew]]. rewrite Hl.
  split; [|split].
  - intros r Hr. apply deref_app. exact Hr.
  - intros r Hge Hlt. apply deref_app_new; assumption.
  - apply run_command_sent.
Qed.

Lemma handle_all_new_objects (cs : list command) (st : state) :
  fst (handle_all cs st) = Ok tt /\
  exists l, objects (snd (handle_all cs st)) = objects st ++ l /\ Forall unobserved l.
Proof.
  revert st. induction cs as [|c cs IH]; intros st; cbn [handle_all].
  - split; [reflexivity|]. exists []. rewrite app_nil_r. split; [reflexivity|constructor].
  - unfold mbind, M_bind, handle.
    destruct (run_command_new_objects c st) as [l1 [H1 Hn1]].
    destruct (IH (snd (run_command c st))) as [Hok [l2 [H2 Hn2]]].
    split; [exact Hok|]. exists (l1 ++ l2). rewrite H2, H1, <- app_assoc.
    split; [reflexivity|]. apply Forall_app. split; assumption.
Qed.

Lemma sweep_frame (snapshot : list (string * loc)) (rs : list round)
    (st : state) (n : nat) :
  n <= length (objects st) ->
  Forall (fun r => r < n) (refs snapshot) ->
  unobserved_from n (objects st) ->
  let st' := snd (sweep snapshot rs st) in
  length (objects st) <= length (objects st') /\
  (forall r, r < length (objects st) -> r ∉ refs snapshot ->
     deref (objects st') r = deref (objects st) r) /\
  unobserved_from n (objects st').
Proof.
  revert rs st. induction snapshot as [|[u item] snapshot IH];
    intros rs st Hn Hrefs Hun; cbn zeta.
  - change (snd (sweep [] rs st)) with st.
    split; [lia|]. split; [reflexivity|exact Hun].
  - destruct rs as [|rd rs].
    { change (snd (sweep ((u, item) :: snapshot) [] st)) with st.
      split; [lia|]. split; [reflexivity|exact Hun]. }
    rewrite sweep_cons.
    destruct (handle_all_new_objects (meanwhile rd) st) as [Hok [l [Hl Hnew]]].
    destruct (handle_all (meanwhile rd) st) as [[[]|e] st1]; [|discriminate].
    cbn [snd] in Hl. cbn [refs map snd] in Hrefs.
    apply Forall_cons in Hrefs as [Hitem Hrefs].
    pose proof (sweep_item_objects st1 u item (supplies rd)) as Hobj.
    set (x := checked_item _ _ _ _) in Hobj.
    assert (Hlen1 : length (objects st1) = length (objects st) + length l)
      by (rewrite Hl; apply length_app).
    assert (Hun1 : unobserved_from n (objects st1)).
    { intros r Hge Hlt. rewrite Hl.
      destruct (decide (r < length (objects st))) as [Hr|Hr].
      - rewrite deref_app by exact Hr. apply Hun; assumption.
      - apply deref_app_new; [exact Hnew|lia|rewrite <- Hl; exact Hlt]. }
    assert (Hstep :
      forall st2, objects st2 = <[item := x]> (objects st1) ->
        length (objects st) <= length (objects st2) /\
        (forall r, r < length (objects st) -> r <> item ->
           deref (objects st2) r = deref (objects st) r) /\
        unobserved_from n (objects st2)).
    { intros st2 H2. rewrite H2, length_insert. split; [lia|]. split.
      - intros r Hr Hne. rewrite deref_insert_ne by congruence.
        rewrite Hl. apply deref_app. exact Hr.
      - intros r Hge Hlt. rewrite length_insert in Hlt.
        rewrite deref_insert_ne by lia. apply Hun1; assumption. }
    destruct (sweep_item u item (supplies rd) st1) as [[[]|e] st2]; cbn [snd] in *.
    + destruct (Hstep st2 Hobj) as (Hlen2 & Hkeep2 & Hun2).
      destruct (IH rs st2 ltac:(lia) Hrefs Hun2) as (Hlen3 & Hkeep3 & Hun3).
      split; [lia|]. split; [|exact Hun3].
      intros r Hr Hnot. cbn [refs map snd] in Hnot.
      apply not_elem_of_cons in Hnot as [Hne Hnot].
      rewrite Hkeep3 by (try lia; exact Hnot). apply Hkeep2; assumption.
    + destruct (Hstep st2 Hobj) as (Hlen2 & Hkeep2 & Hun2).
      split; [exact Hlen2|]. split; [|exact Hun2].
      intros r Hr Hnot. cbn [refs map snd] in Hnot.
      apply not_elem_of_cons in Hnot as [Hne Hnot]. apply Hkeep2; assumption.
Qed.

(** X17.  A sweep works on its snapshot: an object the snapshot does not
    refer to keeps all its fields through the sweep, and an item that a
    command adds during the sweep is not checked in it (it still has no
    status, no title and no time of check when the sweep ends). *)
Theorem sweep_works_on_its_snapshot (snapshot : list (string * loc))
    (rs : list round) (st : state) :
  Forall (fun r => r < length (objects st)) (refs snapshot) ->
  let st' := snd (sweep snapshot rs st) in
  (forall r, r < length (objects st) -> r ∉ refs snapshot ->
     deref (objects st') r = deref (objects st) r) /\
  (forall r, length (objects st) <= r -> r < length (objects st') ->
     unobserved (deref (objects st') r)).
Proof.
  intros Hrefs st'.
  destruct (sweep_frame snapshot rs st (length (objects st)) (le_n _) Hrefs)
    as (_ & Hkeep & Hun).
  { intros r Hge Hlt. lia. }
  split; [exact Hkeep|]. intros r Hge Hlt. apply Hun; assumption.
Qed.

Lemma sweep_works_on_its_snapshot_witness :
  let st' := snd (sweep [(url_etb, 0)]
                    [mkRound [TrackAdd "https://www.bol.com/nl/nl/p/new/3/" None]
                       (instock_turn delivering)]
                    two_items_state) in
  (forall r, r < length (objects two_items_state) -> r ∉ refs [(url_etb, 0)] ->
     deref (objects st') r = deref (objects two_items_state) r) /\
  (forall r, length (objects two_items_state) <= r -> r < length (objects st') ->
     unobserved (deref (objects st') r)).
Proof.
  apply (sweep_works_on_its_snapshot [(url_etb, 0)]).
  repeat constructor.
Defined.

(** ** Adding and removing *)

(** X18.  [track_add] takes any text that contains bol.com or mediamarkt
    somewhere (the test is on the text, not on the host of a url).  For one
    that is not tracked yet it creates the item in memory, with the nickname
    given and nothing observed, and puts it last in the dictionary under the
    text; the interval and the channel are as they were.  This is the memory
    when [save_state] is called, whatever becomes of the save. *)
Theorem track_add_new_item (u : string) (nick : option string) (st : state)
    (d : list (string * loc)) :
  contains "bol.com" u = true \/ contains "mediamarkt" u = true ->
  items (cfg st) = Some d ->
  dict_mem u d = false ->
  let st' := snd (track_add u nick st) in
  objects st' = objects st ++ [mkItem (JStr u) (of_opt nick) JNull JNull JNull] /\
  items (cfg st') = Some (d ++ [(u, length (objects st))]) /\
  interval_sec (cfg st') = interval_sec (cfg st) /\
  alert_channel_id (cfg st') = alert_channel_id (cfg st).
Proof.
  intros Hhost Hd Hm. cbv zeta. unfold track_add.
  assert (Hh : negb (contains "bol.com" u || contains "mediamarkt" u) = false).
  { destruct Hhost as [-> | ->]; [reflexivity|].
    rewrite orb_true_r. reflexivity. }
  rewrite Hh. destruct st as [h [n ch its] f s]. cbn [cfg items] in Hd. subst its.
  cbv [mbind M_bind get_cfg set_cfg set_items the_items save new_item alloc
       mret M_ret raise objects cfg items interval_sec alert_channel_id
       disk sent].
  rewrite Hm. cbn [fst snd objects cfg items interval_sec alert_channel_id].
  assert (Hset : dict_set u (length h) d = d ++ [(u, length h)]).
  { apply dict_set_fresh. intros Hin. apply dict_mem_keys in Hin. congruence. }
  rewrite Hset. repeat split.
Qed.

Lemma track_add_new_item_witness :
  objects (snd (track_add "https://example.org/?ref=bol.com" (Some "x") two_items_state))
  = objects two_items_state
    ++ [mkItem (JStr "https://example.org/?ref=bol.com") (JStr "x") JNull JNull JNull] /\
  items (cfg (snd (track_add "https://example.org/?ref=bol.com" (Some "x")
                     two_items_state)))
  = Some [(url_etb, 0); (url_booster, 1); ("https://example.org/?ref=bol.com", 2)].
Proof.
  destruct (track_add_new_item "https://example.org/?ref=bol.com" (Some "x")
              two_items_state [(url_etb, 0); (url_booster, 1)])
    as (H1 & H2 & _).
  - left. vm_compute. reflexivity.
  - reflexivity.
  - reflexivity.
  - split; [exact H1|exact H2].
Defined.

(** X19.  [track_add] changes nothing, in memory or on file, when the text
    has neither marker, and when the url is tracked already: the item on
    record keeps its nickname and all it has observed. *)
Theorem track_add_rejections (u : string) (nick : option string) (st : state) :
  (contains "bol.com" u = false -> contains "mediamarkt" u = false ->
   track_add u nick st = (Ok NotAProductUrl, st)) /\
  (forall d, contains "bol.com" u = true \/ contains "mediamarkt" u = true ->
     items (cfg st) = Some d -> dict_mem u d = true ->
     track_add u nick st = (Ok AlreadyTracked, st)).
Proof.
  split.
  - intros H1 H2. unfold track_add. rewrite H1, H2. reflexivity.
  - intros d Hhost Hd Hm. unfold track_add.
    assert (Hh : negb (contains "bol.com" u || contains "mediamarkt" u) = false).
    { destruct Hhost as [-> | ->]; [reflexivity|].
      rewrite orb_true_r. reflexivity. }
    rewrite Hh. cbv [mbind M_bind get_cfg the_items mret M_ret]. rewrite Hd.
    cbv [mbind M_bind get_cfg the_items mret M_ret]. rewrite Hd, Hm. reflexivity.
Qed.

Lemma track_add_rejections_witness :
  track_add url_etb (Some "other") two_items_state
  = (Ok AlreadyTracked, two_items_state).
Proof.
  refine (proj2 (track_add_rejections url_etb (Some "other") two_items_state)
            _ _ eq_refl eq_refl).
  left. vm_compute. reflexivity.
Defined.

Lemma find_nickname_pass (h : heap) (identifier : string)
    (pre rest : list (string * loc)) :
  Forall (fun e => passes_nickname identifier (nickname (deref h (snd e)))) pre ->
  find_nickname h identifier (pre ++ rest) = find_nickname h identifier rest.
Proof.
  induction 1 as [|[u item] pre Hp _ IH]; [reflexivity|].
  cbn [app find_nickname]. cbn [snd] in Hp.
  destruct Hp as [Hf | [s [Hs [_ Hne]]]].
  - rewrite Hf. exact IH.
  - rewrite Hs. cbn [truthy].
    destruct (nonempty s); [|exact IH].
    destruct (String.eqb_spec (lower s) (lower identifier)); [contradiction|exact IH].
Qed.

Lemma find_nickname_hit (h : heap) (identifier u nick : string) (item : nat)
    (post : list (string * loc)) :
  nickname (deref h item) = JStr nick -> nonempty nick = true ->
  lower nick = lower identifier ->
  find_nickname h identifier ((u, item) :: post) = Ok (Some u).
Proof.
  intros Hn Hne Hl. cbn [find_nickname]. rewrite Hn. cbn [truthy].
  rewrite Hne, Hl, String.eqb_refl. reflexivity.
Qed.

(** X20.  [track_remove] looks for a url first: an identifier that is a
    tracked url takes that entry, and only that one, out of the dictionary
    in memory, whatever nicknames the items have; the objects are not
    touched.  This is the memory when [save_state] is called, whatever
    becomes of the save. *)
Theorem track_remove_url (u : string) (st : state) (d : list (string * loc)) :
  items (cfg st) = Some d -> NoDup (keys d) -> dict_mem u d = true ->
  let st' := snd (track_remove u st) in
  items (cfg st') = Some (dict_pop u d) /\
  dict_mem u (dict_pop u d) = false /\
  (forall u', u' <> u -> dict_get u' (dict_pop u d) = dict_get u' d) /\
  objects st' = objects st.
Proof.
  intros Hd Hnd Hm. cbv zeta.
  destruct (track_remove_by_url u st d Hd Hnd Hm) as (H2 & H3 & H4).
  split; [exact H2|]. split.
  { destruct (dict_mem u (dict_pop u d)) eqn:E; [|reflexivity].
    apply dict_mem_keys in E. contradiction. }
  split; [|exact H4].
  intros u' Hne. clear -Hne. induction d as [|[k v] d IH]; [reflexivity|].
  cbn [dict_pop dict_get].
  destruct (String.eqb_spec u k) as [->|Hk].
  - destruct (String.eqb_spec u' k); [contradiction|reflexivity].
  - cbn [dict_get]. destruct (String.eqb u' k); [reflexivity|exact IH].
Qed.

Lemma track_remove_url_witness :
  items (cfg (snd (track_remove url_etb nick_state))) = Some [(url_booster, 1)] /\
  objects (snd (track_remove url_etb nick_state)) = objects nick_state.
Proof.
  destruct (track_remove_url url_etb nick_state [(url_etb, 0); (url_booster, 1)])
    as (H1 & _ & _ & H4).
  - reflexivity.
  - apply NoDup_cons. split.
    + intros H. apply list_elem_of_singleton in H. discriminate.
    + apply NoDup_singleton.
  - reflexivity.
  - split; [exact H1|exact H4].
Defined.

(** X21.  An identifier that is no tracked url is taken as a nickname,
    compared up to the case of its letters, those of the Latin-1 supplement
    included (the statement is for texts of characters up to U+00FF): the
    first item in the order of the dictionary that has it as nickname is
    taken out of the dictionary in memory, the objects are not touched; the
    items before it, whose nicknames are absent, empty or different, are
    passed over.  This is the memory when [save_state] is called, whatever
    becomes of the save. *)
Theorem track_remove_nickname (identifier u nick : string) (item : nat)
    (st : state) (pre post : list (string * loc)) :
  items (cfg st) = Some (pre ++ (u, item) :: post) ->
  dict_mem identifier (pre ++ (u, item) :: post) = false ->
  latin1 identifier = true ->
  Forall (fun e => passes_nickname identifier
                     (nickname (deref (objects st) (snd e)))) pre ->
  nickname (deref (objects st) item) = JStr nick ->
  nonempty nick = true ->
  latin1 nick = true ->
  lower nick = lower identifier ->
  nonempty u = true ->
  let st' := snd (track_remove identifier st) in
  items (cfg st') = Some (dict_pop u (pre ++ (u, item) :: post)) /\
  objects st' = objects st.
Proof.
  intros Hd Hm _ Hpre Hn Hne _ Hl Hu. cbv zeta. unfold track_remove.
  cbv [mbind M_bind get_cfg the_items set_items set_cfg save mret M_ret].
  rewrite Hd, Hm. rewrite (find_nickname_pass _ _ _ _ Hpre).
  rewrite (find_nickname_hit _ _ u nick item post Hn Hne Hl).
  cbn [opt_nonempty default from_option id]. rewrite Hu.
  cbn [fst snd cfg items objects disk]. repeat split.
Qed.

Lemma track_remove_nickname_witness :
  items (cfg (snd (track_remove ("POK" ++ E_acute ++ "MON") accent_state)))
  = Some [(url_etb, 0)] /\
  objects (snd (track_remove ("POK" ++ E_acute ++ "MON") accent_state))
  = objects accent_state.
Proof.
  apply (track_remove_nickname ("POK" ++ E_acute ++ "MON") url_booster
           ("Pok" ++ e_acute ++ "mon") 1 accent_state [(url_etb, 0)] []).
  - reflexivity.
  - reflexivity.
  - vm_compute. reflexivity.
  - constructor; [|constructor]. left. reflexivity.
  - reflexivity.
  - reflexivity.
  - vm_compute. reflexivity.
  - vm_compute. reflexivity.
  - reflexivity.
Defined.

(** X22.  An identifier that is no tracked url and, up to the case of its
    letters, no nickname of an item (the statement is for texts of
    characters up to U+00FF) makes [track_remove] answer that nothing
    matches, and changes nothing in memory or on file. *)
Theorem track_remove_no_match (identifier : string) (st : state)
    (d : list (string * loc)) :
  items (cfg st) = Some d ->
  dict_mem identifier d = false ->
  latin1 identifier = true ->
  Forall (fun e => passes_nickname identifier
                     (nickname (deref (objects st) (snd e)))) d ->
  track_remove identifier st = (Ok NoMatch, st).
Proof.
  intros Hd Hm _ Hpass. apply (track_remove_unmatched identifier st d Hd Hm).
  rewrite <- (app_nil_r d). rewrite (find_nickname_pass _ _ _ _ Hpass). reflexivity.
Qed.

Lemma track_remove_no_match_witness :
  track_remove "Pokemon" accent_state = (Ok NoMatch, accent_state).
Proof.
  apply (track_remove_no_match "Pokemon" accent_state _ eq_refl eq_refl).
  - reflexivity.
  - constructor; [left; reflexivity|].
    constructor; [|constructor].
    right. exists ("Pok" ++ e_acute ++ "mon")%string.
    split; [reflexivity|]. split; [vm_compute; reflexivity|].
    vm_compute. discriminate.
Defined.

(** ** The two witnesses of the turn of an item *)

Lemma alert_previous_is_new_witness :
  a_old (mkAlert (JStr "Elite Trainer Box") (JStr "InStock") "InStock" url_etb
           "2026-11-03 12:05:00")
  = JStr "InStock".
Proof.
  apply (alert_previous_is_new two_items_state url_etb 0 (instock_turn delivering)).
  - discriminate.
  - vm_compute. reflexivity.
Defined.

Lemma sweep_item_tracks_witness :
  items (cfg (snd (sweep_item url_booster 1 (instock_turn delivering)
                     (snd (run_command (TrackRemove url_booster) two_items_state)))))
  = Some (dict_set url_booster 1 [(url_etb, 0)]) /\
  dict_get url_booster (dict_set url_booster 1 [(url_etb, 0)]) = Some 1.
Proof.
  apply (sweep_item_tracks
           (snd (run_command (TrackRemove url_booster) two_items_state))).
  vm_compute. reflexivity.
Defined.

(* ================================================================== *)
(** * The keyword stage, in terms of the text of the page *)














